(** * A shallow embedding of the WG0X EtherCAT device driver
      (ethercat_hardware/src/wg0x.cpp) and proofs about it.

    Bytes and machine words are modelled as [Z] with the masking of the
    C++ code written out; stateful member functions are modelled by
    explicit state passing over records that hold the members they touch;
    the transport and the device are modelled as an environment that
    answers each request. *)

From Stdlib Require Import ZArith List Bool Lia.
Import ListNotations.
Open Scope Z_scope.

(* ------------------------------------------------------------------ *)
(** ** Checksum primitives *)

Module Checksum.

(** [WG0X::rotateRight8] *)
Definition rotateRight8 (in_ : Z) : Z :=
  let in1 := Z.land in_ 255 in
  let in2 := Z.lor (Z.shiftr in1 1) (Z.shiftl in1 7) in
  Z.land in2 255.

(** One iteration of the loop of [WG0X::computeChecksum]. *)
Definition checksum_step (checksum d : Z) : Z :=
  let c1 := rotateRight8 checksum in
  let c2 := Z.lxor c1 d in
  Z.land c2 255.

(** [WG0X::computeChecksum] over the bytes [d[0] .. d[length-1]]. *)
Definition computeChecksum (d : list Z) : Z :=
  fold_left checksum_step d 66 (* 0x42 *).

End Checksum.

(* ------------------------------------------------------------------ *)
(** ** Mailbox frames *)

Module Mbx.
Import Checksum.

Inductive MbxCmdType := LOCAL_BUS_READ | LOCAL_BUS_WRITE.

(** Modelled from the spec: the mailbox size constants and the packed
    layout of [WG0XMbxHdr] are declared in wg0x.h, which is not among the
    sources.  The header is packed as a 16-bit local-bus address, a 16-bit
    command word holding [length-1] (12 bits), the sequence number (3 bits)
    and the write/not-read flag (1 bit), and a trailing checksum byte, in
    little-endian byte order; a command is the header, [MBX_DATA_SIZE] data
    bytes and one checksum byte, [MBX_SIZE] bytes in all. *)
Definition MBX_SIZE : Z := 512.
Definition MBX_HDR_SIZE : Z := 5.
Definition MBX_DATA_SIZE : Z := MBX_SIZE - MBX_HDR_SIZE - 1.

Record WG0XMbxHdr := mkHdr {
  address_ : Z;      (* uint16_t *)
  length_ : Z;       (* 12-bit field *)
  seqnum_ : Z;       (* 3-bit field *)
  write_nread_ : Z;  (* 1-bit field *)
  checksum_ : Z      (* uint8_t *)
}.

Definition command_word (h : WG0XMbxHdr) : Z :=
  Z.lor (Z.land (length_ h) 4095)
    (Z.lor (Z.shiftl (Z.land (seqnum_ h) 7) 12)
           (Z.shiftl (Z.land (write_nread_ h) 1) 15)).

(** The bytes of the header without its checksum: sizeof the header minus one. *)
Definition hdr_bytes_nochk (h : WG0XMbxHdr) : list Z :=
  [ Z.land (address_ h) 255; Z.land (Z.shiftr (address_ h) 8) 255;
    Z.land (command_word h) 255; Z.land (Z.shiftr (command_word h) 8) 255 ].

(** All the bytes of the header, its checksum byte included. *)
Definition hdr_bytes (h : WG0XMbxHdr) : list Z :=
  hdr_bytes_nochk h ++ [Z.land (checksum_ h) 255].

(** [WG0XMbxHdr::build]: [None] when it returns false.  Bit-field and
    [uint16_t] stores truncate; [length - 1] wraps as unsigned. *)
Definition hdr_build (address length : Z) (type : MbxCmdType) (seqnum : Z)
  : option WG0XMbxHdr :=
  let too_large :=
    match type with
    | LOCAL_BUS_WRITE => MBX_DATA_SIZE <? length
    | LOCAL_BUS_READ => (MBX_SIZE - 1) <? length
    end in
  if too_large then None else
  let h0 := mkHdr (Z.land address 65535) (Z.land (length - 1) 4095)
                  (Z.land seqnum 7)
                  (match type with LOCAL_BUS_WRITE => 1 | LOCAL_BUS_READ => 0 end)
                  0 in
  Some (mkHdr (address_ h0) (length_ h0) (seqnum_ h0) (write_nread_ h0)
              (rotateRight8 (computeChecksum (hdr_bytes_nochk h0)))).

(** [WG0XMbxHdr::verifyChecksum] *)
Definition hdr_verifyChecksum (h : WG0XMbxHdr) : bool :=
  negb (computeChecksum (hdr_bytes h) =? 0).

(** A mailbox command after [WG0XMbxCmd::build]: the header and the data
    region [data_[0] .. data_[length]], whose last byte is the checksum. *)
Record WG0XMbxCmd := mkCmd {
  hdr_ : WG0XMbxHdr;
  data_ : list Z
}.

(** [WG0XMbxCmd::build]: the source buffer is a pointer, modelled as the
    function reading the byte at each offset, or [None] for [NULL]. *)
Definition cmd_build (address length : Z) (type : MbxCmdType) (seqnum : Z)
    (data : option (nat -> Z)) : option WG0XMbxCmd :=
  match hdr_build address length type seqnum with
  | None => None
  | Some h =>
      let n := Z.to_nat length in
      let payload :=
        match data with
        | Some p => map p (seq 0 n)       (* memcpy *)
        | None => repeat 0 n              (* memset *)
        end in
      let checksum := rotateRight8 (computeChecksum payload) in
      Some (mkCmd h (payload ++ [checksum]))
  end.

End Mbx.

(* ------------------------------------------------------------------ *)
(** ** Per-cycle command packing and status verification *)

Module Cycle.

(** Modelled from the spec: the mode bits of the command and status
    structures are declared in wg0x.h, which is not among the sources;
    [MODE_OFF] is the all-clear (disabled) mode. *)
Definition MODE_OFF : Z := 0.
Definition MODE_ENABLE : Z := 1.
Definition MODE_CURRENT : Z := 2.
Definition MODE_SAFETY_RESET : Z := 16.
Definition MODE_SAFETY_LOCKOUT : Z := 32.

Definition u32 (x : Z) : Z := x mod 2 ^ 32.

(** The members of [WG0X] that [packCommand], [clearErrorFlags] and
    [verifyState] read or write.  The motor models, temperatures and the
    floating-point actuator state are left to the [Ext] record below. *)
Record WG0XState := mkState {
  has_error_ : bool;
  too_many_dropped_packets_ : bool;
  status_checksum_error_ : bool;
  timestamp_jump_detected_ : bool;
  fpga_internal_reset_detected_ : bool;
  resetting_ : bool;
  in_lockout_ : bool;
  last_timestamp_ : Z;          (* uint32_t *)
  last_last_timestamp_ : Z;     (* uint32_t *)
  drops_ : Z;                   (* unsigned *)
  consecutive_drops_ : Z;       (* unsigned *)
  max_consecutive_drops_ : Z    (* unsigned *)
}.

(** Initial values set by the constructor [WG0X::WG0X]. *)
Definition init_state : WG0XState :=
  mkState false false false false false false false 0 0 0 0 0.

(** The fields of [WG0XStatus] that [verifyState] decides on. *)
Record WG0XStatus := mkStatus {
  st_mode_ : Z;        (* uint8_t *)
  st_timestamp_ : Z    (* uint32_t *)
}.

(** What the collaborators of [verifyState] answer on one tick: whether
    the motor heating model halts (present, [!disable_halt_] and
    [hasOverheated()]), whether a motor model is present and what its
    [verify()] returns, [disable_motor_model_checking_], and
    [state.is_enabled_] as set by [unpackState]. *)
Record Ext := mkExt {
  heating_halt : bool;
  motor_model_present : bool;
  motor_model_verify : bool;
  disable_motor_model_checking : bool;
  is_enabled : bool
}.

(** [WG0X::clearErrorFlags] (the motor model resets are external). *)
Definition clearErrorFlags (s : WG0XState) : WG0XState :=
  {| has_error_ := false; too_many_dropped_packets_ := false;
     status_checksum_error_ := false; timestamp_jump_detected_ := false;
     fpga_internal_reset_detected_ := fpga_internal_reset_detected_ s;
     resetting_ := resetting_ s; in_lockout_ := in_lockout_ s;
     last_timestamp_ := last_timestamp_ s;
     last_last_timestamp_ := last_last_timestamp_ s;
     drops_ := drops_ s; consecutive_drops_ := consecutive_drops_ s;
     max_consecutive_drops_ := max_consecutive_drops_ s |}.

Definition set_resetting (b : bool) (s : WG0XState) : WG0XState :=
  {| has_error_ := has_error_ s;
     too_many_dropped_packets_ := too_many_dropped_packets_ s;
     status_checksum_error_ := status_checksum_error_ s;
     timestamp_jump_detected_ := timestamp_jump_detected_ s;
     fpga_internal_reset_detected_ := fpga_internal_reset_detected_ s;
     resetting_ := b; in_lockout_ := in_lockout_ s;
     last_timestamp_ := last_timestamp_ s;
     last_last_timestamp_ := last_last_timestamp_ s;
     drops_ := drops_ s; consecutive_drops_ := consecutive_drops_ s;
     max_consecutive_drops_ := max_consecutive_drops_ s |}.

(** [WG0X::packCommand], reduced to the [mode_] byte it emits and the
    state it leaves ([cmd.enable_] is the controller's enable request). *)
Definition packCommand (enable halt reset : bool) (s : WG0XState)
  : Z * WG0XState :=
  let s1 := if reset then clearErrorFlags s else s in
  let s2 := set_resetting reset s1 in
  let mode := if enable && negb halt && negb (has_error_ s2)
              then Z.lor MODE_ENABLE MODE_CURRENT else MODE_OFF in
  let mode := Z.lor mode (if reset then MODE_SAFETY_RESET else 0) in
  (mode, s2).

(** [WG0X::timestamp_jump] *)
Definition timestamp_jump (timestamp last_timestamp amount : Z) : bool :=
  let timestamp_diff := u32 (timestamp - last_timestamp) in
  amount <? timestamp_diff.

(** Where [verifyState] leaves its checks: one of the [goto end]s, or the
    end of the checks. *)
Inductive VerifyExit :=
  ExitDroppedPackets | ExitLockout | ExitFpgaReset | ExitMotorModel | ExitFallthrough.

(** The duplicate-timestamp test of [verifyState]. *)
Definition is_drop (s : WG0XState) (ts : Z) : bool :=
  (ts =? last_timestamp_ s) || (ts =? last_last_timestamp_ s).

(** [consecutive_drops_] after the duplicate-timestamp test. *)
Definition next_consecutive_drops (s : WG0XState) (ts : Z) : Z :=
  if is_drop s ts then u32 (consecutive_drops_ s + 1) else 0.

(** [WG0X::verifyState]: the returned [rv], the exit taken, and the new
    state. *)
Definition verifyState (s : WG0XState) (st : WG0XStatus) (e : Ext)
  : bool * VerifyExit * WG0XState :=
  let rv0 := negb (heating_halt e) in
  let ts := st_timestamp_ st in
  let drop := is_drop s ts in
  let drops := if drop then u32 (drops_ s + 1) else drops_ s in
  let cdrops := next_consecutive_drops s ts in
  let maxcd := if drop then Z.max (max_consecutive_drops_ s) cdrops
               else max_consecutive_drops_ s in
  let jump := timestamp_jump ts (last_timestamp_ s) 10000000 || timestamp_jump_detected_ s in
  let lastlast := last_timestamp_ s in
  let last := ts in
  let lockout := negb (Z.land (st_mode_ st) MODE_SAFETY_LOCKOUT =? 0) in
  let '(rv, ex, too_many, in_lockout) :=
    if 10 <? cdrops then (false, ExitDroppedPackets, true, in_lockout_ s)
    else if lockout && negb (resetting_ s) then (false, ExitLockout, too_many_dropped_packets_ s, lockout)
    else if fpga_internal_reset_detected_ s then (false, ExitFpgaReset, too_many_dropped_packets_ s, lockout)
    else if is_enabled e && motor_model_present e && negb (disable_motor_model_checking e)
            && negb (motor_model_verify e)
    then (false, ExitMotorModel, too_many_dropped_packets_ s, lockout)
    else (rv0, ExitFallthrough, too_many_dropped_packets_ s, lockout) in
  let has_error := negb rv || has_error_ s in
  (rv, ex,
   {| has_error_ := has_error; too_many_dropped_packets_ := too_many;
      status_checksum_error_ := status_checksum_error_ s;
      timestamp_jump_detected_ := jump;
      fpga_internal_reset_detected_ := fpga_internal_reset_detected_ s;
      resetting_ := resetting_ s; in_lockout_ := in_lockout;
      last_timestamp_ := last; last_last_timestamp_ := lastlast;
      drops_ := drops; consecutive_drops_ := cdrops;
      max_consecutive_drops_ := maxcd |}).

(** One real-time tick event: a [packCommand] or a [verifyState]. *)
Inductive Event :=
  | Pack (enable halt reset : bool)
  | Verify (st : WG0XStatus) (e : Ext).

(** Runs a sequence of events, collecting the [mode_] bytes emitted by
    [packCommand] together with its [reset] argument. *)
Fixpoint run (s : WG0XState) (evs : list Event) : WG0XState * list (bool * Z) :=
  match evs with
  | [] => (s, [])
  | Pack en h r :: evs' =>
      let '(m, s') := packCommand en h r s in
      let '(s'', out) := run s' evs' in (s'', (r, m) :: out)
  | Verify st e :: evs' =>
      let '(_, _, s') := verifyState s st e in run s' evs'
  end.

(** Feeds a sequence of status frames to [verifyState], collecting the
    returned [rv]s. *)
Fixpoint feed (s : WG0XState) (frames : list (WG0XStatus * Ext))
  : WG0XState * list bool :=
  match frames with
  | [] => (s, [])
  | (st, e) :: fs =>
      let '(rv, _, s') := verifyState s st e in
      let '(s'', rvs) := feed s' fs in (s'', rv :: rvs)
  end.

(** A tick event that is not a [packCommand] with [reset = true]. *)
Definition no_reset (ev : Event) : Prop :=
  match ev with Pack _ _ r => r = false | Verify _ _ => True end.

(** Sample frames and collaborator answers used by the examples. *)
Definition lockout_frame : WG0XStatus := mkStatus MODE_SAFETY_LOCKOUT 20000000.
Definition quiet_ext : Ext := mkExt false false true false true.
Definition jump_frame : WG0XStatus := mkStatus 0 20000000.
Definition dup_frames : list (WG0XStatus * Ext) := repeat (mkStatus 0 0, quiet_ext) 11.

End Cycle.

(* ------------------------------------------------------------------ *)
(** ** Diagnostic counters *)

Module Diag.

Definition u32 (x : Z) : Z := x mod 2 ^ 32.

(** Modelled from the spec: the diagnostic records are declared in
    wg0x.h, which is not among the sources; the hardware counters are
    8-bit values ([uint8_t]) and the lifetime totals 32-bit ([uint32_t]).
    Fields of [WG0XDiagnosticsInfo] other than the counters are kept as
    raw bytes. *)
Record WG0XSafetyDisableStatus := mkSafetyStatus {
  safety_disable_status : Z;
  safety_disable_status_hold : Z;
  safety_disable_count_ : Z
}.

Record WG0XSafetyDisableCounters := mkCounters {
  undervoltage_count_ : Z;
  over_current_count_ : Z;
  board_over_temp_count_ : Z;
  bridge_over_temp_count_ : Z;
  operate_disable_count_ : Z;
  watchdog_disable_count_ : Z
}.

Record WG0XDiagnosticsInfo := mkDiagInfo {
  safety_disable_counters_ : WG0XSafetyDisableCounters;
  other_info_ : list Z
}.

(** [WG0XDiagnostics]: the members that [update] and [collectDiagnostics]
    change (the zero-offset hand-off to the device is left out). *)
Record WG0XDiagnostics := mkDiag {
  first_ : bool;
  valid_ : bool;
  safety_disable_total_ : Z;
  undervoltage_total_ : Z;
  over_current_total_ : Z;
  board_over_temp_total_ : Z;
  bridge_over_temp_total_ : Z;
  operate_disable_total_ : Z;
  watchdog_disable_total_ : Z;
  safety_disable_status_ : WG0XSafetyDisableStatus;
  diagnostics_info_ : WG0XDiagnosticsInfo
}.

(** The constructor [WG0XDiagnostics::WG0XDiagnostics]. *)
Definition diag_init : WG0XDiagnostics :=
  mkDiag true false 0 0 0 0 0 0 0 (mkSafetyStatus 0 0 0)
         (mkDiagInfo (mkCounters 0 0 0 0 0 0) []).

(** [0xFF & ((uint32_t)(new - old))]: the [uint8_t] operands are promoted
    to [int] before the subtraction. *)
Definition delta8 (new old : Z) : Z := Z.land (u32 (new - old)) 255.

(** [total += delta] on a [uint32_t]. *)
Definition accumulate (total new old : Z) : Z := u32 (total + delta8 new old).

(** [WG0XDiagnostics::update] *)
Definition update (d : WG0XDiagnostics) (new_status : WG0XSafetyDisableStatus)
    (new_diagnostics_info : WG0XDiagnosticsInfo) : WG0XDiagnostics :=
  let nc := safety_disable_counters_ new_diagnostics_info in
  let oc := safety_disable_counters_ (diagnostics_info_ d) in
  {| first_ := false;
     valid_ := valid_ d;
     safety_disable_total_ :=
       accumulate (safety_disable_total_ d) (safety_disable_count_ new_status)
                  (safety_disable_count_ (safety_disable_status_ d));
     undervoltage_total_ :=
       accumulate (undervoltage_total_ d) (undervoltage_count_ nc) (undervoltage_count_ oc);
     over_current_total_ :=
       accumulate (over_current_total_ d) (over_current_count_ nc) (over_current_count_ oc);
     board_over_temp_total_ :=
       accumulate (board_over_temp_total_ d) (board_over_temp_count_ nc) (board_over_temp_count_ oc);
     bridge_over_temp_total_ :=
       accumulate (bridge_over_temp_total_ d) (bridge_over_temp_count_ nc) (bridge_over_temp_count_ oc);
     operate_disable_total_ :=
       accumulate (operate_disable_total_ d) (operate_disable_count_ nc) (operate_disable_count_ oc);
     watchdog_disable_total_ :=
       accumulate (watchdog_disable_total_ d) (watchdog_disable_count_ nc) (watchdog_disable_count_ oc);
     safety_disable_status_ := new_status;
     diagnostics_info_ := new_diagnostics_info |}.

Definition set_valid_first (v f : bool) (d : WG0XDiagnostics) : WG0XDiagnostics :=
  {| first_ := f; valid_ := v;
     safety_disable_total_ := safety_disable_total_ d;
     undervoltage_total_ := undervoltage_total_ d;
     over_current_total_ := over_current_total_ d;
     board_over_temp_total_ := board_over_temp_total_ d;
     bridge_over_temp_total_ := bridge_over_temp_total_ d;
     operate_disable_total_ := operate_disable_total_ d;
     watchdog_disable_total_ := watchdog_disable_total_ d;
     safety_disable_status_ := safety_disable_status_ d;
     diagnostics_info_ := diagnostics_info_ d |}.

(** What the bus answers during one [collectDiagnostics] poll: whether the
    presence probe came back with working counter 1, the results of the
    two mailbox reads ([None] when [readMailbox] fails), and whether
    [lockWG0XDiagnostics] succeeds. *)
Record DiagPoll := mkPoll {
  present : bool;
  read_status : option WG0XSafetyDisableStatus;
  read_info : option WG0XDiagnosticsInfo;
  lock_ok : bool
}.

(** The reads of [collectDiagnostics] up to the [end:] label: the values
    read when [success] is set. *)
Definition poll_reads (p : DiagPoll)
  : option (WG0XSafetyDisableStatus * WG0XDiagnosticsInfo) :=
  if present p then
    match read_status p with
    | None => None
    | Some s => match read_info p with None => None | Some di => Some (s, di) end
    end
  else None.

(** [WG0X::collectDiagnostics], acting on [wg0x_collect_diagnostics_]. *)
Definition collectDiagnostics (d : WG0XDiagnostics) (p : DiagPoll) : WG0XDiagnostics :=
  let r := poll_reads p in
  if negb (lock_ok p) then set_valid_first false false d
  else match r with
       | Some (s, di) => update (set_valid_first true (first_ d) d) s di
       | None => set_valid_first false (first_ d) d
       end.

(** The seven lifetime totals agree. *)
Definition same_totals (d1 d2 : WG0XDiagnostics) : Prop :=
  safety_disable_total_ d1 = safety_disable_total_ d2 /\
  undervoltage_total_ d1 = undervoltage_total_ d2 /\
  over_current_total_ d1 = over_current_total_ d2 /\
  board_over_temp_total_ d1 = board_over_temp_total_ d2 /\
  bridge_over_temp_total_ d1 = bridge_over_temp_total_ d2 /\
  operate_disable_total_ d1 = operate_disable_total_ d2 /\
  watchdog_disable_total_ d1 = watchdog_disable_total_ d2.

(** A sample of read values used by the examples. *)
Definition sample_status : WG0XSafetyDisableStatus := mkSafetyStatus 1 1 3.

End Diag.

(* ------------------------------------------------------------------ *)
(** ** Mailbox engine *)

Module MbxEngine.
Import Mbx.

(** Modelled from the spec: the status mailbox size is declared in wg0x.h,
    which is not among the sources. *)
Definition MBX_STATUS_SIZE : Z := 512.

(** *** Waiting for the command mailbox to empty *)

(** One iteration of the polling loop of [waitForWriteMailboxReady]: the
    sync-manager status byte read from the device ([None] when [readData]
    fails), whether [safe_clock_gettime] succeeds, and the milliseconds
    elapsed since the start, as [timediff_ms] computes them. *)
Record PollSample := mkSample {
  sm_status : option Z;
  clock_ok : bool;
  elapsed_ms : Z
}.

Inductive WaitResult := WaitReady | WaitTimeout | WaitClockError.

(** The [do ... while (timediff < MAX_WAIT_TIME_MS)] loop of
    [WG0X::waitForWriteMailboxReady], one iteration per sample (bit 3 of
    the status byte set means the mailbox is still full).  Once the
    samples are used up the device no longer answers and the 100 ms budget
    is spent, so the loop times out. *)
Fixpoint wait_write_loop (samples : list PollSample) : WaitResult :=
  match samples with
  | [] => WaitTimeout
  | smp :: rest =>
      let empty := match sm_status smp with
                   | Some b => negb (Z.testbit b 3)
                   | None => false
                   end in
      if empty then WaitReady
      else if negb (clock_ok smp) then WaitClockError
      else if elapsed_ms smp <? 100 then wait_write_loop rest
      else WaitTimeout
  end.

(** [WG0X::waitForWriteMailboxReady]: [true] only for [WaitReady]. *)
Definition waitForWriteMailboxReady (start_clock_ok : bool) (samples : list PollSample)
  : WaitResult :=
  if negb start_clock_ok then WaitClockError else wait_write_loop samples.

(** What the device and the transport answer during one [writeMailbox]:
    the mailbox lock, [verifyDeviceStateForMailboxOperation], the result of
    [writeMailboxInternal], the sequence counter and the polls of
    [waitForWriteMailboxReady]. *)
Record WriteEnv := mkWriteEnv {
  w_lock_ok : bool;
  w_device_ok : bool;
  w_internal_ok : bool;
  w_mbx_counter : Z;
  w_start_clock_ok : bool;
  w_samples : list PollSample
}.

(** [WG0X::writeMailbox_]: the outcome of [waitForWriteMailboxReady] is
    only reported on [stderr]. *)
Definition writeMailbox_ (env : WriteEnv) (address : Z) (data : option (nat -> Z))
    (length : Z) : Z :=
  if negb (w_device_ok env) then -1 else
  match cmd_build address length LOCAL_BUS_WRITE (w_mbx_counter env) data with
  | None => -1
  | Some _ =>
      if negb (w_internal_ok env) then -1 else
      match waitForWriteMailboxReady (w_start_clock_ok env) (w_samples env) with
      | WaitReady => 0
      | _ => 0   (* fprintf "write mailbox" error, then fall through *)
      end
  end.

(** [WG0X::writeMailbox] *)
Definition writeMailbox (env : WriteEnv) (address : Z) (data : option (nat -> Z))
    (length : Z) : Z :=
  if negb (w_lock_ok env) then -1 else writeMailbox_ env address data length.

(** *** Reading the status mailbox *)

(** The outcome of one [txandrx_once] of the read frame: dropped, or
    received with the working counters of [read_start] and [read_end]. *)
Inductive TxResult := TxDropped | TxOk (wkc_start wkc_end : Z).

(** The transport and the device, as seen by [readMailboxInternal]: the
    outcome of the [n]-th send, the outcome of the [n]-th
    [readMailboxRepeatRequest], and the working counter that
    [updateIndexAndWkc] writes back into a telegram ([logic->get_wkc()]). *)
Record ReadEnv := mkReadEnv {
  tx : nat -> TxResult;
  repeat_ok : nat -> bool;
  logic_wkc : Z
}.

(** What [readMailboxInternal] does on the bus, in order. *)
Inductive ReadAction := ActSend | ActRepeatRequest | ActDiagnose.

Record ReadSt := mkReadSt {
  rd_sends : nat;
  rd_repeats : nat;
  rd_total_dropped : nat;
  rd_wkc_start : Z;
  rd_wkc_end : Z;
  rd_log : list ReadAction
}.

Definition MAX_TRIES : nat := 10.
Definition MAX_DROPPED : nat := 10.

(** The inner [for (dropped=0; dropped<MAX_DROPPED; ++dropped)] loop:
    returns the final value of [dropped]. *)
Fixpoint send_loop (env : ReadEnv) (fuel dropped : nat) (st : ReadSt) : nat * ReadSt :=
  match fuel with
  | O => (dropped, st)
  | S f =>
      match tx env (rd_sends st) with
      | TxOk ws we =>
          (dropped, mkReadSt (S (rd_sends st)) (rd_repeats st) (rd_total_dropped st)
                             ws we (rd_log st ++ [ActSend]))
      | TxDropped =>
          send_loop env f (S dropped)
            (mkReadSt (S (rd_sends st)) (rd_repeats st) (S (rd_total_dropped st))
                      (logic_wkc env) (logic_wkc env) (rd_log st ++ [ActSend]))
      end
  end.

(** [readMailboxRepeatRequest] *)
Definition repeat_request (env : ReadEnv) (st : ReadSt) : bool * ReadSt :=
  (repeat_ok env (rd_repeats st),
   mkReadSt (rd_sends st) (S (rd_repeats st)) (rd_total_dropped st)
            (rd_wkc_start st) (rd_wkc_end st) (rd_log st ++ [ActRepeatRequest])).

Definition log_diagnose (st : ReadSt) : ReadSt :=
  mkReadSt (rd_sends st) (rd_repeats st) (rd_total_dropped st)
           (rd_wkc_start st) (rd_wkc_end st) (rd_log st ++ [ActDiagnose]).

(** The outer [for (tries=0; tries<MAX_TRIES; ++tries)] loop with the
    [tries >= MAX_TRIES] test after it; [left] attempts remain. *)
Fixpoint tries_loop (env : ReadEnv) (split_read : bool) (left : nat) (st : ReadSt)
  : bool * ReadSt :=
  match left with
  | O => (false, log_diagnose st)
  | S left' =>
      let '(dropped, st1) := send_loop env MAX_DROPPED 0 st in
      if split_read && negb (rd_wkc_start st1 =? rd_wkc_end st1) then (false, st1)
      else if rd_wkc_start st1 =? 0 then
        if Nat.eqb dropped 0 then (false, st1)
        else
          let '(ok, st2) := repeat_request env st1 in
          if ok then tries_loop env split_read left' st2 else (false, st2)
      else if rd_wkc_start st1 =? 1 then (true, st1)
      else (false, log_diagnose st1)
  end.

Definition read_init (env : ReadEnv) : ReadSt :=
  mkReadSt 0 0 0 (logic_wkc env) (logic_wkc env) [].

(** [WG0X::readMailboxInternal]; [device_ok] is the result of
    [verifyDeviceStateForMailboxOperation]. *)
Definition readMailboxInternal (env : ReadEnv) (device_ok : bool) (length : Z)
  : bool * ReadSt :=
  if MBX_STATUS_SIZE <? length then (false, read_init env)
  else if negb device_ok then (false, read_init env)
  else
    let split_read := (length + 50) <? MBX_STATUS_SIZE in
    tries_loop env split_read MAX_TRIES (read_init env).

(** Sample environments used by the examples. *)
Definition full_mailbox_polls : list PollSample :=
  [mkSample (Some 8) true 0; mkSample (Some 8) true 50; mkSample (Some 8) true 100].

Definition stuck_write_env : WriteEnv :=
  mkWriteEnv true true true 1 true full_mailbox_polls.

Definition drop_then_refused_env : ReadEnv :=
  mkReadEnv (fun n => match n with O => TxDropped | _ => TxOk 0 0 end)
            (fun _ => false) 0.

Definition drop_then_retry_env : ReadEnv :=
  mkReadEnv (fun n => match n with O => TxDropped | 1%nat => TxOk 0 0 | _ => TxOk 1 1 end)
            (fun _ => true) 0.

End MbxEngine.

(* ------------------------------------------------------------------ *)
(** ** SPI EEPROM page read *)

Module Eeprom.
Import MbxEngine.

(** Modelled from the spec: the page geometry and the address of the
    on-device SPI scratch buffer are declared in wg0x.h, which is not among
    the sources. *)
Definition MAX_EEPROM_PAGE_SIZE : Z := 264.
Definition NUM_EEPROM_PAGES : Z := 4096.
Definition SPI_BUFFER_ADDR : Z := 62464 (* 0xF400 *).

(** The two buffers [readEepromPage] can be handed: the member
    [actuator_info_] itself (as [readActuatorInfoFromEeprom] does during
    [initialize]) or another caller buffer (such as the motor heating model
    configuration). *)
Inductive Buf := ActuatorInfoBuf | OtherBuf.

Record Mem := mkMem {
  actuator_info_ : list Z;   (* the 264 bytes of [WG0XActuatorInfo] *)
  other_buf : list Z
}.

Definition buf_get (m : Mem) (b : Buf) : list Z :=
  match b with ActuatorInfoBuf => actuator_info_ m | OtherBuf => other_buf m end.

Definition buf_set (m : Mem) (b : Buf) (v : list Z) : Mem :=
  match b with
  | ActuatorInfoBuf => mkMem v (other_buf m)
  | OtherBuf => mkMem (actuator_info_ m) v
  end.

(** [memset(p, 0, n)] / [memcpy(p, src, n)] on the first [n] bytes. *)
Definition overwrite_prefix (l src : list Z) (n : nat) : list Z :=
  firstn n src ++ skipn n l.

(** The mailbox and SPI operations [readEepromPage] issues. *)
Inductive EepromOp :=
  | OpMbxWrite (address : Z) (bytes : list Z)
  | OpSpiRead (page : Z)
  | OpMbxRead (address : Z) (length : Z).

(** What the device answers: whether the mailbox write, the SPI command
    and the mailbox read succeed, and the bytes read back. *)
Record EepromEnv := mkEepromEnv {
  e_write_ok : bool;
  e_spi_ok : bool;
  e_read : option (list Z)
}.

(** [WG0X::readEepromPage] *)
Definition readEepromPage (env : EepromEnv) (m : Mem) (page : Z) (data : Buf) (length : Z)
  : bool * list EepromOp * Mem :=
  if MAX_EEPROM_PAGE_SIZE <? length then (false, [], m)
  else if NUM_EEPROM_PAGES <=? page then (false, [], m)
  else
    let n := Z.to_nat length in
    let m1 := buf_set m data (overwrite_prefix (buf_get m data) (repeat 0 n) n) in
    let w := OpMbxWrite SPI_BUFFER_ADDR (actuator_info_ m1) in
    if negb (e_write_ok env) then (false, [w], m1) else
    if negb (e_spi_ok env) then (false, [w; OpSpiRead page], m1) else
    let r := OpMbxRead SPI_BUFFER_ADDR length in
    match e_read env with
    | None => (false, [w; OpSpiRead page; r], m1)
    | Some bytes =>
        (true, [w; OpSpiRead page; r],
         buf_set m1 data (overwrite_prefix (buf_get m1 data) bytes n))
    end.

(** The bytes [readEepromPage] writes into the scratch buffer before its
    SPI read command. *)
Definition scratch_bytes (ops : list EepromOp) : option (list Z) :=
  match ops with OpMbxWrite _ b :: _ => Some b | _ => None end.

(** An [actuator_info_] holding nonzero bytes, as it does once
    [initialize] has read a programmed record: here the ASCII bytes of a
    name followed by zeros, 264 bytes in all. *)
Definition programmed_actuator_info : list Z :=
  [114; 95; 119; 114; 105; 115; 116] ++ repeat 0 257.

Definition eeprom_ok_env : EepromEnv := mkEepromEnv true true (Some (repeat 255 256)).

Definition loaded_mem : Mem := mkMem programmed_actuator_info (repeat 0 256).

End Eeprom.

(* ------------------------------------------------------------------ *)
(** ** The inverse of the checksum rotation *)

Module ChecksumInv.
Import Checksum.

(** Rotation of a byte left by one bit, undoing [rotateRight8]. *)
Definition rotateLeft8 (in_ : Z) : Z :=
  Z.land (Z.lor (Z.shiftl (Z.land in_ 255) 1) (Z.shiftr (Z.land in_ 255) 7)) 255.

End ChecksumInv.

(* ------------------------------------------------------------------ *)
(** ** Wrap-around time and position arithmetic *)

Module Timing.

(** [int32_t(x)]: the 32-bit two's complement reading of [x]. *)
Definition int32 (x : Z) : Z :=
  let y := x mod 2 ^ 32 in if 2 ^ 31 <=? y then y - 2 ^ 32 else y.

(** [WG0X::timestampDiff]: [uint32_t] subtraction, then [int32_t]. *)
Definition timestampDiff (new_timestamp old_timestamp : Z) : Z :=
  int32 ((new_timestamp - old_timestamp) mod 2 ^ 32).


Definition USEC_PER_SEC : Z := 1000000.

(** [WG0X::timediffToDuration]: the [(sec, nsec)] pair handed to the
    [ros::Duration] constructor; C++ [/] and [%] truncate toward zero. *)
Definition timediffToDuration (timediff_usec : Z) : Z * Z :=
  let sec := Z.quot timediff_usec USEC_PER_SEC in
  let nsec := Z.rem timediff_usec USEC_PER_SEC * 1000 in
  (sec, nsec).

Record timespec := mkTimespec { tv_sec : Z; tv_nsec : Z }.

(** [timediff_ms]: computed on [time_t] and [long], returned as [int]. *)
Definition timediff_ms (current start : timespec) : Z :=
  int32 ((tv_sec current - tv_sec start) * 1000
         + Z.quot (tv_nsec current - tv_nsec start) 1000000).

End Timing.

(* ------------------------------------------------------------------ *)
(** ** Mailbox transport: clearing, writing and the full read *)

Module Transport.
Import Checksum Mbx MbxEngine Eeprom.

(** Declared in wg0x.h next to [MBX_STATUS_SIZE], with the same width. *)
Definition MBX_COMMAND_SIZE : Z := MBX_SIZE.

(** [com->txandrx_once(&frame)] repeated until a frame comes back, at most
    [fuel] times: the working counters of the two telegrams of the frame
    that came back, and the number of sends. *)
Fixpoint txandrx_retry (txf : nat -> TxResult) (fuel sends : nat)
  : option (Z * Z) * nat :=
  match fuel with
  | O => (None, sends)
  | S f =>
      match txf sends with
      | TxOk ws we => (Some (ws, we), S sends)
      | TxDropped => txandrx_retry txf f (S sends)
      end
  end.

Definition MAX_DROPS : nat := 15.

(** [WG0X::clearReadMailbox]: the result and the number of sends;
    [device_ok] is [verifyDeviceStateForMailboxOperation()]. *)
Definition clearReadMailbox (device_ok : bool) (txf : nat -> TxResult) : bool * nat :=
  if negb device_ok then (false, O) else
  match txandrx_retry txf MAX_DROPS O with
  | (None, sends) => (false, sends)
  | (Some (ws, we), sends) =>
      if negb (ws =? we) then (false, sends)
      else if 1 <? ws then (false, sends)
      else (true, sends)   (* a working counter of 1 is only a warning *)
  end.

Definition TELEGRAM_OVERHEAD : Z := 50.

(** [WG0X::writeMailboxInternal]: the result and the number of sends
    ([write_end] is only part of the frame when [split_write] holds, so
    its working counter is only compared then). *)
Definition writeMailboxInternal (device_ok : bool) (txf : nat -> TxResult) (length : Z)
  : bool * nat :=
  if MBX_COMMAND_SIZE <? length then (false, O)
  else if negb device_ok then (false, O)
  else
    let split_write := (length + TELEGRAM_OVERHEAD) <? MBX_COMMAND_SIZE in
    match txandrx_retry txf 10 O with
    | (None, sends) => (false, sends)
    | (Some (ws, we), sends) =>
        if split_write && negb (ws =? we) then (false, sends)
        else if 1 <? ws then (false, sends)
        else if negb (ws =? 1) then
          if Nat.leb sends 1 then (false, sends) else (true, sends)
        else (true, sends)
    end.

(** What the bus and the device answer during one [readMailbox_]. *)
Record ReadMbxEnv := mkReadMbxEnv {
  r_device_ok : bool;              (* verifyDeviceStateForMailboxOperation() *)
  r_clear_tx : nat -> TxResult;    (* the sends of clearReadMailbox *)
  r_mbx_counter : Z;               (* sh_->get_mbx_counter() *)
  r_write_tx : nat -> TxResult;    (* the sends of writeMailboxInternal *)
  r_ready_ok : bool;               (* waitForReadMailboxReady *)
  r_read_env : ReadEnv;            (* the sends of readMailboxInternal *)
  r_reply : list Z                 (* the bytes the status mailbox delivers *)
}.

(** [stat] after [memset(&stat, 0, sizeof(stat))] and a successful read of
    its first [n] bytes. *)
Definition reply_bytes (reply : list Z) (n : nat) : list Z :=
  firstn n (reply ++ repeat 0 n).

(** [WG0X::readMailbox_]: the returned [int] and the caller's buffer.  The
    device-state check returns [false], converted to the [int] 0. *)
Definition readMailbox_ (env : ReadMbxEnv) (address length : Z) (data : list Z)
  : Z * list Z :=
  if negb (r_device_ok env) then (0, data)
  else if negb (fst (clearReadMailbox true (r_clear_tx env))) then (-1, data)
  else
    match cmd_build address length LOCAL_BUS_READ (r_mbx_counter env)
                    (Some (fun i => nth i data 0)) with
    | None => (-1, data)
    | Some _ =>
        if negb (fst (writeMailboxInternal true (r_write_tx env) MBX_HDR_SIZE)) then (-1, data)
        else if negb (r_ready_ok env) then (-1, data)
        else if negb (fst (readMailboxInternal (r_read_env env) true (length + 1))) then (-1, data)
        else
          let stat := reply_bytes (r_reply env) (Z.to_nat (length + 1)) in
          if negb (computeChecksum stat =? 0) then (-1, data)
          else (0, overwrite_prefix data stat (Z.to_nat length))
    end.

(** [WG0X::readMailbox]: the mailbox lock, then [readMailbox_]; a nonzero
    result is counted in [mailbox_diagnostics_.read_errors_]. *)
Definition readMailbox (lock_ok : bool) (env : ReadMbxEnv) (address length : Z)
    (data : list Z) (read_errors : Z) : Z * list Z * Z :=
  if negb lock_ok then (-1, data, read_errors) else
  let '(result, data') := readMailbox_ env address length data in
  (result, data', if result =? 0 then read_errors else read_errors + 1).

(** Sample answers used by the examples. *)
Definition ok_tx : nat -> TxResult := fun _ => TxOk 1 1.
Definition refused_tx : nat -> TxResult := fun _ => TxOk 0 0.

Definition sample_reply : list Z := [1; 2; 3; rotateRight8 (computeChecksum [1; 2; 3])].

Definition good_read_env : ReadMbxEnv :=
  mkReadMbxEnv true ok_tx 1 ok_tx true (mkReadEnv ok_tx (fun _ => true) 0) sample_reply.

(** The same bus with the device outside SAFEOP and OP. *)
Definition device_down_env : ReadMbxEnv :=
  mkReadMbxEnv false ok_tx 1 ok_tx true (mkReadEnv ok_tx (fun _ => true) 0) sample_reply.

End Transport.

(* ------------------------------------------------------------------ *)
(** ** SPI EEPROM state machine: waits, commands and page writes *)

Module Spi.
Import Eeprom.

(** Modelled from the spec: [WG0XSpiEepromCmd] and [EepromStatusReg] are
    declared in wg0x.h, which is not among the sources.  The command
    register holds a page, an operation code and a busy flag; the codes and
    the register address are the values of that header, and the ready flag
    is the top bit of the status byte. *)
Definition SPI_READ_OP : Z := 0.
Definition SPI_WRITE_OP : Z := 1.
Definition SPI_ARBITRARY_OP : Z := 3.
Definition SPI_COMMAND_ADDR : Z := 560 (* 0x230 *).

Record WG0XSpiEepromCmd := mkSpiCmd {
  page_ : Z;
  operation_ : Z;
  busy_ : bool
}.

Definition build_write (page : Z) : WG0XSpiEepromCmd :=
  mkSpiCmd (Z.land page 65535) SPI_WRITE_OP false.

Definition build_arbitrary (length : Z) : WG0XSpiEepromCmd :=
  mkSpiCmd (Z.land (length - 1) 65535) SPI_ARBITRARY_OP false.

(** [EepromStatusReg::ready_] of the raw status byte. *)
Definition ready_ (raw : Z) : bool := Z.testbit raw 7.

(** The mailbox transactions of the SPI EEPROM functions, in order. *)
Inductive SpiOp :=
  | OpWriteBuf (bytes : list Z)            (* writeMailbox to SPI_BUFFER_ADDR *)
  | OpWriteCmd (cmd : WG0XSpiEepromCmd)    (* writeMailbox to SPI_COMMAND_ADDR *)
  | OpReadCmd                              (* readMailbox of SPI_COMMAND_ADDR *)
  | OpReadBuf (len : Z).                   (* readMailbox of SPI_BUFFER_ADDR *)

(** What the device answers: whether the [n]-th [writeMailbox] returns 0,
    and what the [n]-th read of the command register and of the SPI buffer
    return ([None] when [readMailbox] fails). *)
Record SpiEnv := mkSpiEnv {
  mbx_write_ok : nat -> bool;
  cmd_read : nat -> option WG0XSpiEepromCmd;
  buf_read : nat -> option (list Z)
}.

Record SpiSt := mkSpiSt {
  n_writes : nat;
  n_cmd_reads : nat;
  n_buf_reads : nat;
  spi_log : list SpiOp
}.

Definition spi_init : SpiSt := mkSpiSt 0 0 0 [].

Definition mbx_write (env : SpiEnv) (op : SpiOp) (st : SpiSt) : bool * SpiSt :=
  (mbx_write_ok env (n_writes st),
   mkSpiSt (S (n_writes st)) (n_cmd_reads st) (n_buf_reads st) (spi_log st ++ [op])).

(** [WG0X::readSpiEepromCmd] *)
Definition readSpiEepromCmd (env : SpiEnv) (st : SpiSt) : option WG0XSpiEepromCmd * SpiSt :=
  (cmd_read env (n_cmd_reads st),
   mkSpiSt (n_writes st) (S (n_cmd_reads st)) (n_buf_reads st) (spi_log st ++ [OpReadCmd])).

Definition read_buf (env : SpiEnv) (len : Z) (st : SpiSt) : option (list Z) * SpiSt :=
  (buf_read env (n_buf_reads st),
   mkSpiSt (n_writes st) (n_cmd_reads st) (S (n_buf_reads st)) (spi_log st ++ [OpReadBuf len])).

(** The [do { ++tries; ... } while (tries <= 10)] loop of
    [waitForSpiEepromReady]; [tries] reads have been made. *)
Fixpoint wait_spi_loop (env : SpiEnv) (fuel tries : nat) (st : SpiSt) : bool * SpiSt :=
  match fuel with
  | O => (false, st)
  | S f =>
      let tries := S tries in
      let '(r, st1) := readSpiEepromCmd env st in
      match r with
      | None => (false, st1)
      | Some cmd =>
          if negb (busy_ cmd) then (true, st1)
          else if Nat.leb tries 10 then wait_spi_loop env f tries st1
          else (false, st1)
      end
  end.

(** [WG0X::waitForSpiEepromReady] *)
Definition waitForSpiEepromReady (env : SpiEnv) (st : SpiSt) : bool * SpiSt :=
  wait_spi_loop env 11 0 st.

(** The read-back [do { ... } while (++tries < 10)] loop of
    [sendSpiEepromCmd]. *)
Fixpoint readback_loop (env : SpiEnv) (cmd : WG0XSpiEepromCmd) (fuel tries : nat)
    (st : SpiSt) : bool * SpiSt :=
  match fuel with
  | O => (false, st)
  | S f =>
      let '(r, st1) := readSpiEepromCmd env st in
      match r with
      | None => (false, st1)
      | Some stat =>
          if negb (operation_ stat =? operation_ cmd) then (false, st1)
          else if negb (busy_ stat) then (true, st1)
          else if Nat.ltb (S tries) 10 then readback_loop env cmd f (S tries) st1
          else (false, st1)
      end
  end.

(** [WG0X::sendSpiEepromCmd] *)
Definition sendSpiEepromCmd (env : SpiEnv) (cmd : WG0XSpiEepromCmd) (st : SpiSt)
  : bool * SpiSt :=
  let '(ok, st1) := waitForSpiEepromReady env st in
  if negb ok then (false, st1) else
  let '(wok, st2) := mbx_write env (OpWriteCmd cmd) st1 in
  if negb wok then (false, st2) else
  readback_loop env cmd 10 0 st2.

(** [WG0X::readEepromStatusReg]: the raw status byte. *)
Definition readEepromStatusReg (env : SpiEnv) (st : SpiSt) : option Z * SpiSt :=
  let '(wok, st1) := mbx_write env (OpWriteBuf [215; 0]) st in   (* {0xD7, 0x00} *)
  if negb wok then (None, st1) else
  let '(sok, st2) := sendSpiEepromCmd env (build_arbitrary 2) st1 in
  if negb sok then (None, st2) else
  let '(r, st3) := read_buf env 2 st2 in
  match r with
  | None => (None, st3)
  | Some data => (Some (nth 1 data 0), st3)
  end.

(** The [do { ... } while (++tries < 20)] loop of [waitForEepromReady]. *)
Fixpoint wait_eeprom_loop (env : SpiEnv) (fuel tries : nat) (st : SpiSt) : bool * SpiSt :=
  match fuel with
  | O => (false, st)
  | S f =>
      let '(r, st1) := readEepromStatusReg env st in
      match r with
      | None => (false, st1)
      | Some raw =>
          if ready_ raw then (true, st1)
          else if Nat.ltb (S tries) 20 then wait_eeprom_loop env f (S tries) st1
          else (false, st1)
      end
  end.

(** [WG0X::waitForEepromReady] *)
Definition waitForEepromReady (env : SpiEnv) (st : SpiSt) : bool * SpiSt :=
  wait_eeprom_loop env 20 0 st.



(** Sample answers used by the examples. *)
Definition idle_cmd (op : Z) : WG0XSpiEepromCmd := mkSpiCmd 0 op false.
Definition busy_cmd (op : Z) : WG0XSpiEepromCmd := mkSpiCmd 0 op true.

Definition always_busy_env : SpiEnv :=
  mkSpiEnv (fun _ => true) (fun _ => Some (busy_cmd 0)) (fun _ => None).

(** The device of a page write: idle before the write, the write command
    read back once busy and then done, one status poll that is ready. *)
Definition page_write_env : SpiEnv :=
  mkSpiEnv (fun _ => true)
    (fun n => match n with
              | 2%nat => Some (busy_cmd SPI_WRITE_OP)
              | 3%nat => Some (idle_cmd SPI_WRITE_OP)
              | 5%nat => Some (idle_cmd SPI_ARBITRARY_OP)
              | _ => Some (idle_cmd 0)
              end)
    (fun _ => Some [255; 128]).

End Spi.

(* ------------------------------------------------------------------ *)
(** ** CRC-32 of the actuator information record *)

Module Crc.

(** Modelled from the spec: [boost::crc_32_type] (not among the sources)
    is the standard CRC-32: reflected polynomial 0xEDB88320, initial value
    and final XOR 0xFFFFFFFF.  It is computed here bit by bit. *)
Definition CRC32_POLY : Z := 3988292384.

Definition crc32_bit (c : Z) : Z :=
  if Z.testbit c 0 then Z.lxor (Z.shiftr c 1) CRC32_POLY else Z.shiftr c 1.

Definition crc32_byte (c b : Z) : Z := Nat.iter 8 crc32_bit (Z.lxor c b).

(** [crc.process_bytes(p, n); crc.checksum()] on the bytes [p[0..n)]. *)
Definition crc_32 (bytes : list Z) : Z :=
  Z.land (Z.lxor (fold_left crc32_byte bytes (Z.ones 32)) (Z.ones 32)) (Z.ones 32).

(** A [uint32_t] member, stored little-endian. *)
Definition le32 (v : Z) : list Z :=
  [Z.land v 255; Z.land (Z.shiftr v 8) 255;
   Z.land (Z.shiftr v 16) 255; Z.land (Z.shiftr v 24) 255].

Definition get_u32 (l : list Z) (off : nat) : Z :=
  nth off l 0 + 256 * nth (off + 1) l 0
  + 65536 * nth (off + 2) l 0 + 16777216 * nth (off + 3) l 0.

Definition set_u32 (l : list Z) (off : nat) (v : Z) : list Z :=
  firstn off l ++ le32 v ++ skipn (off + 4) l.

(** [offsetof(WG0XActuatorInfo, crc32_256_)] and
    [offsetof(WG0XActuatorInfo, crc32_264_)], as the static assertions of
    [verifyCRC] fix them. *)
Definition crc32_256_offset : nat := 252.
Definition crc32_264_offset : nat := 260.

(** [WG0XActuatorInfo::verifyCRC] on the 264 bytes of the record. *)
Definition verifyCRC (info : list Z) : bool :=
  (get_u32 info crc32_264_offset =? crc_32 (firstn crc32_264_offset info))
  || (get_u32 info crc32_256_offset =? crc_32 (firstn crc32_256_offset info)).

(** [WG0XActuatorInfo::generateCRC]: the second CRC covers the first. *)
Definition generateCRC (info : list Z) : list Z :=
  let info1 := set_u32 info crc32_256_offset (crc_32 (firstn crc32_256_offset info)) in
  set_u32 info1 crc32_264_offset (crc_32 (firstn crc32_264_offset info1)).

Definition is_byte (x : Z) : Prop := 0 <= x < 256.

(** A sample record: a name followed by zeros, 264 bytes. *)
Definition sample_info : list Z := [87; 71; 48; 53] ++ repeat 0 260.

End Crc.

(* ------------------------------------------------------------------ *)
(** ** Successive diagnostic polls *)

Module DiagSeq.
Import Diag.

(** [collectDiagnostics] called once per poll. *)
Fixpoint collect_all (d : WG0XDiagnostics) (ps : list DiagPoll) : WG0XDiagnostics :=
  match ps with
  | [] => d
  | p :: ps' => collect_all (collectDiagnostics d p) ps'
  end.

(** Each lifetime total with the raw counter value it was last updated
    from. *)
Definition totals_and_counts (d : WG0XDiagnostics) : list (Z * Z) :=
  let c := safety_disable_counters_ (diagnostics_info_ d) in
  [(safety_disable_total_ d, safety_disable_count_ (safety_disable_status_ d));
   (undervoltage_total_ d, undervoltage_count_ c);
   (over_current_total_ d, over_current_count_ c);
   (board_over_temp_total_ d, board_over_temp_count_ c);
   (bridge_over_temp_total_ d, bridge_over_temp_count_ c);
   (operate_disable_total_ d, operate_disable_count_ c);
   (watchdog_disable_total_ d, watchdog_disable_count_ c)].

(** A successful poll returning the given counters. *)
Definition ok_poll (s : WG0XSafetyDisableStatus) (di : WG0XDiagnosticsInfo) : DiagPoll :=
  mkPoll true (Some s) (Some di) true.

(** Total and raw counter agree modulo 256, up to a constant offset. *)
Definition same_residue (p q : Z * Z) : Prop :=
  (fst q - snd q) mod 256 = (fst p - snd p) mod 256.

End DiagSeq.


(* ================================================================== *)
(** * Proofs *)

(* ------------------------------------------------------------------ *)
(** ** Checksum and frame builder *)

Module ChecksumFacts.
Import Checksum Mbx.

Lemma rotateRight8_land (x : Z) : Z.land (rotateRight8 x) 255 = rotateRight8 x.
Proof. unfold rotateRight8. rewrite <- Z.land_assoc. reflexivity. Qed.

Lemma computeChecksum_snoc (l : list Z) (x : Z) :
  computeChecksum (l ++ [x]) = checksum_step (computeChecksum l) x.
Proof. unfold computeChecksum. rewrite fold_left_app. reflexivity. Qed.

(** Appending [rotateRight8 (computeChecksum l)] makes the fold vanish. *)
Lemma computeChecksum_trailer (l : list Z) :
  computeChecksum (l ++ [rotateRight8 (computeChecksum l)]) = 0.
Proof.
  rewrite computeChecksum_snoc. unfold checksum_step.
  rewrite Z.lxor_nilpotent. reflexivity.
Qed.

Lemma hdr_build_checksum (a L : Z) (t : MbxCmdType) (s : Z) (h : WG0XMbxHdr) :
  hdr_build a L t s = Some h -> computeChecksum (hdr_bytes h) = 0.
Proof.
  unfold hdr_build. destruct (match t with
    | LOCAL_BUS_WRITE => MBX_DATA_SIZE <? L
    | LOCAL_BUS_READ => MBX_SIZE - 1 <? L end); [discriminate|].
  intros Hs. injection Hs as <-. unfold hdr_bytes at 1. simpl checksum_.
  rewrite rotateRight8_land. apply computeChecksum_trailer.
Qed.

Lemma cmd_build_hdr (a L : Z) (t : MbxCmdType) (s : Z) d (c : WG0XMbxCmd) :
  cmd_build a L t s d = Some c ->
  hdr_build a L t s = Some (hdr_ c) /\
  exists payload, length payload = Z.to_nat L /\
    data_ c = payload ++ [rotateRight8 (computeChecksum payload)].
Proof.
  unfold cmd_build. destruct (hdr_build a L t s) as [h|]; [|discriminate].
  intros Hc. injection Hc as <-. simpl. split; [reflexivity|].
  eexists; split; [|reflexivity].
  destruct d; [rewrite length_map, length_seq | rewrite repeat_length]; reflexivity.
Qed.

End ChecksumFacts.

Import Checksum Mbx ChecksumFacts.

(** C3: every frame the builder produces folds to zero under the checksum,
    its trailing checksum byte included: the [sizeof] bytes of every header
    built by [WG0XMbxHdr::build], and the [L] data bytes plus the appended
    checksum byte of every command built by [WG0XMbxCmd::build] with
    payload length [L]. *)
Theorem built_frames_checksum_zero (a L : Z) (t : MbxCmdType) (s : Z) :
  (forall h, hdr_build a L t s = Some h -> computeChecksum (hdr_bytes h) = 0) /\
  (forall d c, cmd_build a L t s d = Some c ->
     length (data_ c) = S (Z.to_nat L) /\ computeChecksum (data_ c) = 0).
Proof.
  split.
  - apply hdr_build_checksum.
  - intros d c Hc. destruct (cmd_build_hdr a L t s d c Hc) as [_ [p [Hl ->]]].
    split.
    + rewrite length_app, Hl. simpl. lia.
    + apply computeChecksum_trailer.
Qed.

Lemma built_frames_checksum_zero_witness :
  exists c, cmd_build 4096 8 LOCAL_BUS_WRITE 5 (Some (fun i => Z.of_nat i * 37)) = Some c
         /\ computeChecksum (hdr_bytes (hdr_ c)) = 0
         /\ computeChecksum (data_ c) = 0.
Proof.
  eexists. split; [reflexivity|]. split.
  - apply (proj1 (built_frames_checksum_zero 4096 8 LOCAL_BUS_WRITE 5)).
    vm_compute. reflexivity.
  - apply (proj2 (built_frames_checksum_zero 4096 8 LOCAL_BUS_WRITE 5)
                 (Some (fun i => Z.of_nat i * 37))).
    reflexivity.
Defined.

(** C10: [WG0XMbxHdr::verifyChecksum] returns true exactly when the fold
    over the whole header is nonzero, so it returns false on every header
    freshly built by [WG0XMbxHdr::build]. *)
Theorem hdr_verifyChecksum_negated (a L : Z) (t : MbxCmdType) (s : Z) :
  (forall h, hdr_verifyChecksum h = true <-> computeChecksum (hdr_bytes h) <> 0) /\
  (forall h, hdr_build a L t s = Some h -> hdr_verifyChecksum h = false).
Proof.
  split.
  - intros h. unfold hdr_verifyChecksum. rewrite negb_true_iff, Z.eqb_neq.
    reflexivity.
  - intros h Hb. unfold hdr_verifyChecksum.
    rewrite (hdr_build_checksum a L t s h Hb). reflexivity.
Qed.

Lemma hdr_verifyChecksum_negated_witness :
  exists h, hdr_build 4096 8 LOCAL_BUS_READ 2 = Some h /\ hdr_verifyChecksum h = false.
Proof.
  eexists. split; [reflexivity|].
  apply (proj2 (hdr_verifyChecksum_negated 4096 8 LOCAL_BUS_READ 2)).
  vm_compute. reflexivity.
Defined.

(* ------------------------------------------------------------------ *)
(** ** Error latch, verification order and dropped packets *)

Module CycleFacts.
Import Cycle.

(** Splits [verifyState] into its paths. *)
Ltac verifyState_cases :=
  unfold verifyState; cbv zeta;
  repeat match goal with
         | |- context [if ?b then _ else _] => let E := fresh "E" in destruct b eqn:E
         end;
  let H := fresh "H" in intros H; injection H as <- <- <-.

Lemma verifyState_has_error s st e rv ex s' :
  verifyState s st e = (rv, ex, s') -> has_error_ s' = negb rv || has_error_ s.
Proof. verifyState_cases; reflexivity. Qed.

Lemma verifyState_fields s st e rv ex s' :
  verifyState s st e = (rv, ex, s') ->
  last_timestamp_ s' = st_timestamp_ st /\
  last_last_timestamp_ s' = last_timestamp_ s /\
  drops_ s' = (if is_drop s (st_timestamp_ st) then u32 (drops_ s + 1) else drops_ s) /\
  consecutive_drops_ s' = next_consecutive_drops s (st_timestamp_ st) /\
  timestamp_jump_detected_ s' =
    timestamp_jump (st_timestamp_ st) (last_timestamp_ s) 10000000
    || timestamp_jump_detected_ s.
Proof. verifyState_cases; repeat split; reflexivity. Qed.

Lemma verifyState_drops_exit s st e rv ex s' :
  verifyState s st e = (rv, ex, s') ->
  10 < next_consecutive_drops s (st_timestamp_ st) ->
  rv = false /\ ex = ExitDroppedPackets /\ too_many_dropped_packets_ s' = true.
Proof.
  verifyState_cases; intros Hlt; try (rewrite Z.ltb_ge in *; lia); auto.
Qed.

Lemma verifyState_no_drops_exit s st e rv ex s' :
  verifyState s st e = (rv, ex, s') ->
  next_consecutive_drops s (st_timestamp_ st) <= 10 ->
  too_many_dropped_packets_ s' = too_many_dropped_packets_ s /\
  (negb (Z.land (st_mode_ st) MODE_SAFETY_LOCKOUT =? 0) && negb (resetting_ s) = true ->
     rv = false /\ ex = ExitLockout) /\
  (negb (Z.land (st_mode_ st) MODE_SAFETY_LOCKOUT =? 0) && negb (resetting_ s) = false ->
   fpga_internal_reset_detected_ s = false ->
   is_enabled e && motor_model_present e && negb (disable_motor_model_checking e)
     && negb (motor_model_verify e) = false ->
   rv = negb (heating_halt e) /\ ex = ExitFallthrough).
Proof.
  verifyState_cases; intros Hle; try (rewrite Z.ltb_lt in *; lia);
    repeat split; intros; try discriminate; try congruence; auto.
Qed.

Lemma packCommand_noreset en h s m s' :
  packCommand en h false s = (m, s') ->
  has_error_ s' = has_error_ s /\ (has_error_ s = true -> m = MODE_OFF).
Proof.
  unfold packCommand. simpl. intros H. injection H as <- <-. simpl.
  split; [reflexivity|]. intros ->. rewrite !andb_false_r. reflexivity.
Qed.

Lemma packCommand_reset en h s :
  has_error_ (snd (packCommand en h true s)) = false /\
  fst (packCommand en h true s) =
    Z.lor (if en && negb h then Z.lor MODE_ENABLE MODE_CURRENT else MODE_OFF)
          MODE_SAFETY_RESET.
Proof. unfold packCommand. simpl. rewrite andb_true_r. split; reflexivity. Qed.

Lemma run_pack s en h r evs :
  run s (Pack en h r :: evs) =
  let '(m, s') := packCommand en h r s in
  let '(s'', out) := run s' evs in (s'', (r, m) :: out).
Proof. reflexivity. Qed.

Lemma run_verify s st e evs :
  run s (Verify st e :: evs) = let '(_, _, s') := verifyState s st e in run s' evs.
Proof. reflexivity. Qed.

Lemma run_latched (evs : list Event) : forall s,
  has_error_ s = true -> Forall no_reset evs ->
  has_error_ (fst (run s evs)) = true /\
  Forall (fun rm => snd rm = MODE_OFF) (snd (run s evs)).
Proof.
  induction evs as [|ev evs IH]; intros s Hs Hall; [simpl; auto|].
  inversion Hall as [|? ? Hev Hrest]; subst.
  destruct ev as [en h r | st e].
  - simpl in Hev. subst r. rewrite run_pack.
    destruct (packCommand en h false s) as [m s1] eqn:Hp.
    destruct (packCommand_noreset en h s m s1 Hp) as [He Hm].
    destruct (run s1 evs) as [s2 out] eqn:Hr.
    assert (Hs1 : has_error_ s1 = true) by congruence.
    specialize (IH s1 Hs1 Hrest). rewrite Hr in IH. simpl in *.
    destruct IH as [IH1 IH2]. split; [exact IH1|]. constructor; auto.
  - rewrite run_verify. destruct (verifyState s st e) as [[rv ex] s1] eqn:Hv.
    apply IH; [|assumption].
    rewrite (verifyState_has_error _ _ _ _ _ _ Hv), Hs. apply orb_true_r.
Qed.

Lemma u32_small (x : Z) : 0 <= x < 2 ^ 32 -> u32 x = x.
Proof. intros. unfold u32. apply Z.mod_small. assumption. Qed.

Lemma feed_app (l1 l2 : list (WG0XStatus * Ext)) : forall s,
  feed s (l1 ++ l2) =
  (fst (feed (fst (feed s l1)) l2), snd (feed s l1) ++ snd (feed (fst (feed s l1)) l2)).
Proof.
  induction l1 as [|[st e] l1 IH]; intros s; simpl.
  - destruct (feed s l2); reflexivity.
  - destruct (verifyState s st e) as [[rv ex] s1].
    rewrite IH. destruct (feed s1 l1) as [s2 r1]. simpl.
    destruct (feed s2 l2); reflexivity.
Qed.

(** A frame repeating the last timestamp extends the streak by one. *)
Lemma verifyState_dup s st e rv ex s' :
  verifyState s st e = (rv, ex, s') ->
  st_timestamp_ st = last_timestamp_ s ->
  0 <= consecutive_drops_ s < 10 ->
  last_timestamp_ s' = last_timestamp_ s /\
  consecutive_drops_ s' = consecutive_drops_ s + 1 /\
  too_many_dropped_packets_ s' = too_many_dropped_packets_ s.
Proof.
  intros Hv Ht Hc.
  destruct (verifyState_fields _ _ _ _ _ _ Hv) as [Hl [_ [_ [Hcd _]]]].
  assert (Hn : next_consecutive_drops s (st_timestamp_ st) = consecutive_drops_ s + 1).
  { unfold next_consecutive_drops, is_drop. rewrite Ht, Z.eqb_refl. simpl.
    apply u32_small. lia. }
  destruct (verifyState_no_drops_exit _ _ _ _ _ _ Hv) as [Htm _]; [lia|].
  repeat split; congruence.
Qed.

Lemma feed_dup (frames : list (WG0XStatus * Ext)) : forall s,
  Forall (fun f => st_timestamp_ (fst f) = last_timestamp_ s) frames ->
  0 <= consecutive_drops_ s ->
  consecutive_drops_ s + Z.of_nat (length frames) <= 10 ->
  last_timestamp_ (fst (feed s frames)) = last_timestamp_ s /\
  consecutive_drops_ (fst (feed s frames)) = consecutive_drops_ s + Z.of_nat (length frames) /\
  too_many_dropped_packets_ (fst (feed s frames)) = too_many_dropped_packets_ s.
Proof.
  induction frames as [|[st e] fs IH]; intros s Hall H0 Hlen; simpl.
  - repeat split; lia.
  - inversion Hall as [|? ? Hf Hrest]; subst. simpl in Hf, Hlen.
    destruct (verifyState s st e) as [[rv ex] s1] eqn:Hv.
    destruct (verifyState_dup _ _ _ _ _ _ Hv Hf) as [Hl [Hc Ht]]; [lia|].
    destruct (IH s1) as [IH1 [IH2 IH3]].
    + rewrite Hl. assumption.
    + lia.
    + lia.
    + destruct (feed s1 fs) as [s2 r] eqn:Hr. simpl in *.
      repeat split; [congruence | lia | congruence].
Qed.

Lemma Forall_firstn_of {A} (P : A -> Prop) (n : nat) (l : list A) :
  Forall P l -> Forall P (firstn n l).
Proof.
  rewrite <- (firstn_skipn n l) at 1. intros H. apply Forall_app in H. tauto.
Qed.

Lemma feed_length (l : list (WG0XStatus * Ext)) : forall s,
  length (snd (feed s l)) = length l.
Proof.
  induction l as [|[st e] l IH]; intros s; [reflexivity|]. simpl.
  destruct (verifyState s st e) as [[rv ex] s1].
  specialize (IH s1). destruct (feed s1 l). simpl in *. congruence.
Qed.

End CycleFacts.

Import Cycle CycleFacts.

(** C1: the error latch.  A failing [verifyState] sets [has_error_]; from
    a state with [has_error_] set, any run of ticks without a reset keeps
    it set, and every [packCommand] with [reset = false] emits [MODE_OFF]
    (enable and current bits clear); a [packCommand] with [reset = true]
    clears the latch through [clearErrorFlags] before it computes the
    mode, and [verifyState] never clears it. *)
Theorem error_latch (s : WG0XState) :
  (forall st e ex s', verifyState s st e = (false, ex, s') -> has_error_ s' = true) /\
  (forall st e rv ex s', verifyState s st e = (rv, ex, s') ->
     has_error_ s = true -> has_error_ s' = true) /\
  (forall evs, has_error_ s = true -> Forall no_reset evs ->
     has_error_ (fst (run s evs)) = true /\
     Forall (fun rm => snd rm = MODE_OFF /\
                       Z.land (snd rm) (Z.lor MODE_ENABLE MODE_CURRENT) = 0)
            (snd (run s evs))) /\
  (forall en h, has_error_ (snd (packCommand en h true s)) = false /\
     fst (packCommand en h true s) =
       Z.lor (if en && negb h then Z.lor MODE_ENABLE MODE_CURRENT else MODE_OFF)
             MODE_SAFETY_RESET).
Proof.
  split; [|split; [|split]].
  - intros st e ex s' Hv. rewrite (verifyState_has_error _ _ _ _ _ _ Hv). reflexivity.
  - intros st e rv ex s' Hv Hs. rewrite (verifyState_has_error _ _ _ _ _ _ Hv), Hs.
    apply orb_true_r.
  - intros evs Hs Hall. destruct (run_latched evs s Hs Hall) as [H1 H2].
    split; [assumption|]. eapply Forall_impl; [|exact H2].
    intros rm Hrm. rewrite Hrm. split; reflexivity.
  - intros en h. apply packCommand_reset.
Qed.

Lemma error_latch_witness :
  has_error_ (snd (verifyState init_state lockout_frame quiet_ext)) = true /\
  Forall (fun rm => snd rm = MODE_OFF /\
                    Z.land (snd rm) (Z.lor MODE_ENABLE MODE_CURRENT) = 0)
    (snd (run (snd (verifyState init_state lockout_frame quiet_ext))
              [Pack true false false; Verify (mkStatus 0 20001000) quiet_ext;
               Pack true false false])).
Proof.
  split.
  - apply (proj1 (error_latch init_state) lockout_frame quiet_ext ExitLockout).
    reflexivity.
  - apply (proj1 (proj2 (proj2 (error_latch _)))).
    + reflexivity.
    + repeat constructor.
Defined.

(** C4: verification order.  With no reset request in progress and no
    dropped-packet streak above 10, a frame reporting the safety-lockout
    bit and a timestamp jump of more than 10,000,000 us fails at the
    lockout check (and the jump is latched); a timestamp jump alone only
    sets [timestamp_jump_detected_]: when no other check fails,
    [verifyState] succeeds. *)
Theorem lockout_precedence (s : WG0XState) (st : WG0XStatus) (e : Ext) :
  (forall rv ex s', verifyState s st e = (rv, ex, s') ->
     resetting_ s = false ->
     next_consecutive_drops s (st_timestamp_ st) <= 10 ->
     Z.land (st_mode_ st) MODE_SAFETY_LOCKOUT <> 0 ->
     timestamp_jump (st_timestamp_ st) (last_timestamp_ s) 10000000 = true ->
     rv = false /\ ex = ExitLockout /\ timestamp_jump_detected_ s' = true) /\
  (forall rv ex s', verifyState s st e = (rv, ex, s') ->
     timestamp_jump (st_timestamp_ st) (last_timestamp_ s) 10000000 = true ->
     next_consecutive_drops s (st_timestamp_ st) <= 10 ->
     (Z.land (st_mode_ st) MODE_SAFETY_LOCKOUT = 0 \/ resetting_ s = true) ->
     fpga_internal_reset_detected_ s = false ->
     heating_halt e = false ->
     is_enabled e && motor_model_present e && negb (disable_motor_model_checking e)
       && negb (motor_model_verify e) = false ->
     rv = true /\ ex = ExitFallthrough /\ timestamp_jump_detected_ s' = true).
Proof.
  split.
  - intros rv ex s' Hv Hr Hd Hl Hj.
    destruct (verifyState_no_drops_exit _ _ _ _ _ _ Hv Hd) as [_ [Hlock _]].
    destruct Hlock as [-> ->].
    + rewrite Hr, andb_true_r. apply negb_true_iff, Z.eqb_neq. assumption.
    + destruct (verifyState_fields _ _ _ _ _ _ Hv) as [_ [_ [_ [_ ->]]]].
      rewrite Hj. auto.
  - intros rv ex s' Hv Hj Hd Hl Hf Hh Hm.
    destruct (verifyState_fields _ _ _ _ _ _ Hv) as [_ [_ [_ [_ Hjd]]]].
    rewrite Hj in Hjd. rewrite Hjd.
    destruct (verifyState_no_drops_exit _ _ _ _ _ _ Hv Hd) as [_ [_ Hok]].
    destruct Hok as [-> ->]; [| assumption | assumption |].
    + destruct Hl as [Hl|Hl]; rewrite Hl; [reflexivity|apply andb_false_r].
    + rewrite Hh. auto.
Qed.

Lemma lockout_precedence_witness :
  (fst (fst (verifyState init_state lockout_frame quiet_ext)) = false /\
   snd (fst (verifyState init_state lockout_frame quiet_ext)) = ExitLockout /\
   timestamp_jump_detected_ (snd (verifyState init_state lockout_frame quiet_ext)) = true) /\
  (fst (fst (verifyState init_state jump_frame quiet_ext)) = true /\
   snd (fst (verifyState init_state jump_frame quiet_ext)) = ExitFallthrough /\
   timestamp_jump_detected_ (snd (verifyState init_state jump_frame quiet_ext)) = true).
Proof.
  split.
  - apply (proj1 (lockout_precedence init_state lockout_frame quiet_ext));
      vm_compute; try discriminate; reflexivity.
  - apply (proj2 (lockout_precedence init_state jump_frame quiet_ext));
      vm_compute; try discriminate; auto.
Defined.

(** C5: dropped-packet counting.  [verifyState] counts a drop exactly when
    the frame's timestamp equals one of the last two seen, extends the
    streak then and resets it otherwise, and latches "too many dropped
    packets" (returning failure) exactly when the streak exceeds 10; from a
    state with no streak and no latch, feeding 11 frames that each repeat
    the prior frame's timestamp latches it on the 11th frame and not
    before. *)
Theorem dropped_packet_streak :
  (forall s st e rv ex s', verifyState s st e = (rv, ex, s') ->
     drops_ s' = (if is_drop s (st_timestamp_ st) then u32 (drops_ s + 1) else drops_ s) /\
     (is_drop s (st_timestamp_ st) = true <->
        st_timestamp_ st = last_timestamp_ s \/ st_timestamp_ st = last_last_timestamp_ s) /\
     consecutive_drops_ s' =
       (if is_drop s (st_timestamp_ st) then u32 (consecutive_drops_ s + 1) else 0) /\
     (10 < consecutive_drops_ s' -> too_many_dropped_packets_ s' = true /\ rv = false) /\
     (consecutive_drops_ s' <= 10 ->
        too_many_dropped_packets_ s' = too_many_dropped_packets_ s)) /\
  (forall s frames,
     consecutive_drops_ s = 0 -> too_many_dropped_packets_ s = false ->
     length frames = 11%nat ->
     Forall (fun f => st_timestamp_ (fst f) = last_timestamp_ s) frames ->
     (forall n, (n < 11)%nat -> too_many_dropped_packets_ (fst (feed s (firstn n frames))) = false) /\
     too_many_dropped_packets_ (fst (feed s frames)) = true /\
     nth 10 (snd (feed s frames)) true = false).
Proof.
  split.
  - intros s st e rv ex s' Hv.
    destruct (verifyState_fields _ _ _ _ _ _ Hv) as [_ [_ [Hd [Hc _]]]].
    split; [exact Hd|]. split.
    + unfold is_drop. rewrite orb_true_iff, !Z.eqb_eq. reflexivity.
    + split; [exact Hc|]. rewrite Hc. split.
      * intros Hlt. destruct (verifyState_drops_exit _ _ _ _ _ _ Hv Hlt) as [? [_ ?]]. auto.
      * intros Hle. apply (verifyState_no_drops_exit _ _ _ _ _ _ Hv Hle).
  - intros s frames H0 Hf Hlen Hall. split.
    + intros n Hn. rewrite <- Hf.
      apply (feed_dup (firstn n frames) s).
      * apply Forall_firstn_of. exact Hall.
      * lia.
      * rewrite length_firstn, Hlen, H0. lia.
    + set (f11 := nth 10 frames (jump_frame, quiet_ext)).
      assert (Hsplit : frames = firstn 10 frames ++ [f11]).
      { unfold f11. clear -Hlen.
        do 11 (destruct frames as [|? frames]; [discriminate|]).
        destruct frames; [reflexivity|discriminate]. }
      assert (Ht11 : st_timestamp_ (fst f11) = last_timestamp_ s).
      { rewrite Forall_forall in Hall. apply Hall. unfold f11.
        apply nth_In. lia. }
      destruct (feed_dup (firstn 10 frames) s) as [Hl [Hc Ht]].
      * apply Forall_firstn_of. exact Hall.
      * lia.
      * rewrite length_firstn, Hlen, H0. simpl. lia.
      * assert (Hrl : length (snd (feed s (firstn 10 frames))) = 10%nat)
          by (rewrite feed_length, length_firstn, Hlen; reflexivity).
        rewrite length_firstn, Hlen, H0 in Hc.
        change (0 + Z.of_nat (Nat.min 10 11)) with 10 in Hc.
        rewrite Hsplit, feed_app.
        destruct (feed s (firstn 10 frames)) as [s10 rvs]. simpl in *.
        destruct f11 as [st e]. simpl in Ht11.
        destruct (verifyState s10 st e) as [[rv ex] s11] eqn:Hv.
        assert (Hn : 10 < next_consecutive_drops s10 (st_timestamp_ st)).
        { unfold next_consecutive_drops, is_drop.
          rewrite Ht11, <- Hl, Z.eqb_refl. simpl. rewrite u32_small; lia. }
        destruct (verifyState_drops_exit _ _ _ _ _ _ Hv Hn) as [-> [_ Htm]].
        simpl. split; [exact Htm|].
        rewrite app_nth2; rewrite Hrl; [reflexivity|lia].
Qed.

Lemma dropped_packet_streak_witness :
  too_many_dropped_packets_ (fst (feed init_state (firstn 10 dup_frames))) = false /\
  too_many_dropped_packets_ (fst (feed init_state dup_frames)) = true /\
  nth 10 (snd (feed init_state dup_frames)) true = false.
Proof.
  destruct (proj2 dropped_packet_streak init_state dup_frames) as [H1 H2].
  - reflexivity.
  - reflexivity.
  - reflexivity.
  - unfold dup_frames. simpl. repeat constructor.
  - split; [apply H1; lia | exact H2].
Defined.

(* ------------------------------------------------------------------ *)
(** ** Diagnostic counters *)

Module DiagFacts.
Import Diag.

Lemma delta8_mod (new old : Z) : delta8 new old = (new - old) mod 256.
Proof.
  unfold delta8, u32. change 255 with (Z.ones 8).
  rewrite Z.land_ones by lia.
  apply Z.mod_mod_divide. exists (2 ^ 24). reflexivity.
Qed.

Lemma accumulate_mod (total new old : Z) :
  accumulate total new old = u32 (total + (new - old) mod 256).
Proof. unfold accumulate. rewrite delta8_mod. reflexivity. Qed.

End DiagFacts.

Import Diag DiagFacts.

(** C8: every [WG0XDiagnostics::update] adds [(new - old) mod 256] to each
    32-bit lifetime total, for the safety-disable count and each of the six
    safety-disable counters; from [old = 250] to [new = 3] it adds 9. *)
Theorem update_adds_wrapped_delta (d : WG0XDiagnostics)
    (ns : WG0XSafetyDisableStatus) (ndi : WG0XDiagnosticsInfo) :
  let d' := update d ns ndi in
  let nc := safety_disable_counters_ ndi in
  let oc := safety_disable_counters_ (diagnostics_info_ d) in
  safety_disable_total_ d' =
    u32 (safety_disable_total_ d +
         (safety_disable_count_ ns - safety_disable_count_ (safety_disable_status_ d)) mod 256) /\
  undervoltage_total_ d' =
    u32 (undervoltage_total_ d + (undervoltage_count_ nc - undervoltage_count_ oc) mod 256) /\
  over_current_total_ d' =
    u32 (over_current_total_ d + (over_current_count_ nc - over_current_count_ oc) mod 256) /\
  board_over_temp_total_ d' =
    u32 (board_over_temp_total_ d + (board_over_temp_count_ nc - board_over_temp_count_ oc) mod 256) /\
  bridge_over_temp_total_ d' =
    u32 (bridge_over_temp_total_ d + (bridge_over_temp_count_ nc - bridge_over_temp_count_ oc) mod 256) /\
  operate_disable_total_ d' =
    u32 (operate_disable_total_ d + (operate_disable_count_ nc - operate_disable_count_ oc) mod 256) /\
  watchdog_disable_total_ d' =
    u32 (watchdog_disable_total_ d + (watchdog_disable_count_ nc - watchdog_disable_count_ oc) mod 256) /\
  delta8 3 250 = 9.
Proof.
  simpl. rewrite !accumulate_mod. repeat split.
Qed.

(** C9, as stated: every poll, failed or not, replaces the cached snapshot
    with the values it read.  A poll whose first mailbox read succeeds and
    whose second fails leaves the first value out of the snapshot. *)
Lemma snapshot_always_replaced_counterexample :
  ~ (forall d p s, read_status p = Some s ->
       safety_disable_status_ (collectDiagnostics d p) = s).
Proof.
  intros H.
  specialize (H diag_init (mkPoll true (Some sample_status) None true) sample_status
                eq_refl).
  vm_compute in H. discriminate.
Qed.

(** C9, amended: [collectDiagnostics] replaces the cached snapshot with
    the values read (and marks it valid) exactly when the poll succeeded
    and the diagnostics lock was taken; after a failed poll, or without
    the lock, the snapshot and the lifetime totals are left as they were,
    so the next delta is computed from the last successfully read
    values. *)
Theorem snapshot_replaced_on_success (d : WG0XDiagnostics) (p : DiagPoll) :
  (forall s di, lock_ok p = true -> poll_reads p = Some (s, di) ->
     safety_disable_status_ (collectDiagnostics d p) = s /\
     diagnostics_info_ (collectDiagnostics d p) = di /\
     valid_ (collectDiagnostics d p) = true) /\
  (lock_ok p = false \/ poll_reads p = None ->
     safety_disable_status_ (collectDiagnostics d p) = safety_disable_status_ d /\
     diagnostics_info_ (collectDiagnostics d p) = diagnostics_info_ d /\
     same_totals (collectDiagnostics d p) d /\
     valid_ (collectDiagnostics d p) = false).
Proof.
  unfold collectDiagnostics. split.
  - intros s di Hl Hr. rewrite Hl, Hr. simpl. repeat split.
  - intros [Hl | Hr].
    + rewrite Hl. simpl. unfold same_totals. repeat split.
    + destruct (lock_ok p); simpl; rewrite ?Hr; unfold same_totals; repeat split.
Qed.

Lemma snapshot_replaced_on_success_witness :
  safety_disable_status_
    (collectDiagnostics diag_init (mkPoll true (Some sample_status) None true)) =
    safety_disable_status_ diag_init /\
  safety_disable_status_
    (collectDiagnostics diag_init
       (mkPoll true (Some sample_status) (Some (diagnostics_info_ diag_init)) true)) =
    sample_status.
Proof.
  split.
  - apply (proj2 (snapshot_replaced_on_success diag_init
                    (mkPoll true (Some sample_status) None true))).
    right. reflexivity.
  - apply (proj1 (snapshot_replaced_on_success diag_init
                    (mkPoll true (Some sample_status) (Some (diagnostics_info_ diag_init)) true))
             sample_status (diagnostics_info_ diag_init)); reflexivity.
Defined.

(* ------------------------------------------------------------------ *)
(** ** Mailbox engine and EEPROM page read *)

Import MbxEngine Eeprom.

(** C2: a mailbox write whose wait for the command mailbox to empty times
    out is still reported as a success: with the mailbox status bit set
    on every poll until the 100 ms budget is spent,
    [waitForWriteMailboxReady] times out and [writeMailbox] returns 0. *)
Theorem writeMailbox_wait_timeout_returns_zero :
  waitForWriteMailboxReady (w_start_clock_ok stuck_write_env) (w_samples stuck_write_env)
    = WaitTimeout /\
  writeMailbox_ stuck_write_env 4096 None 4 = 0 /\
  writeMailbox stuck_write_env 4096 None 4 = 0.
Proof. vm_compute. repeat split. Qed.

Module ReadFacts.

Lemma send_loop_ge env f : forall d st, (d <= fst (send_loop env f d st))%nat.
Proof.
  induction f as [|f IH]; intros d st; simpl; [lia|].
  destruct (tx env (rd_sends st)); simpl; [|lia].
  specialize (IH (S d) (mkReadSt (S (rd_sends st)) (rd_repeats st)
     (S (rd_total_dropped st)) (logic_wkc env) (logic_wkc env) (rd_log st ++ [ActSend]))).
  lia.
Qed.

(** No drop in an attempt: its first send came back, and it was the only
    send. *)
Lemma send_loop_no_drop env f st :
  fst (send_loop env (S f) 0 st) = 0%nat ->
  rd_log (snd (send_loop env (S f) 0 st)) = rd_log st ++ [ActSend].
Proof.
  simpl. destruct (tx env (rd_sends st)) eqn:Htx; simpl; [|reflexivity].
  intros H. pose proof (send_loop_ge env f 1
    (mkReadSt (S (rd_sends st)) (rd_repeats st) (S (rd_total_dropped st))
              (logic_wkc env) (logic_wkc env) (rd_log st ++ [ActSend]))). lia.
Qed.

Lemma send_loop_log env f : forall d st,
  exists t, rd_log (snd (send_loop env (S f) d st)) = rd_log st ++ ActSend :: t.
Proof.
  induction f as [|f IH]; intros d st; simpl;
    destruct (tx env (rd_sends st)); simpl.
  - exists []. reflexivity.
  - exists []. reflexivity.
  - destruct (IH (S d) (mkReadSt (S (rd_sends st)) (rd_repeats st)
       (S (rd_total_dropped st)) (logic_wkc env) (logic_wkc env)
       (rd_log st ++ [ActSend]))) as [t Ht].
    simpl in Ht. exists (ActSend :: t). rewrite Ht, <- app_assoc. reflexivity.
  - exists []. reflexivity.
Qed.

Lemma tries_loop_S env sp n st :
  tries_loop env sp (S n) st =
  let '(dropped, st1) := send_loop env MAX_DROPPED 0 st in
  if sp && negb (rd_wkc_start st1 =? rd_wkc_end st1) then (false, st1)
  else if rd_wkc_start st1 =? 0 then
    if Nat.eqb dropped 0 then (false, st1)
    else
      let '(ok, st2) := repeat_request env st1 in
      if ok then tries_loop env sp n st2 else (false, st2)
  else if rd_wkc_start st1 =? 1 then (true, st1)
  else (false, log_diagnose st1).
Proof. reflexivity. Qed.

Lemma tries_loop_log env sp n : forall st,
  exists t, rd_log (snd (tries_loop env sp n st)) = rd_log st ++ t.
Proof.
  induction n as [|n IH]; intros st.
  - simpl. eexists. reflexivity.
  - rewrite tries_loop_S. destruct (send_loop_log env 9 0 st) as [t1 H1].
    change (send_loop env 10 0 st) with (send_loop env MAX_DROPPED 0 st) in H1.
    destruct (send_loop env MAX_DROPPED 0 st) as [dropped st1]. simpl in H1.
    destruct (sp && negb (rd_wkc_start st1 =? rd_wkc_end st1)); simpl.
    { rewrite H1. eexists. reflexivity. }
    destruct (rd_wkc_start st1 =? 0).
    + destruct (Nat.eqb dropped 0); simpl.
      { rewrite H1. eexists. reflexivity. }
      destruct (repeat_ok env (rd_repeats st1)); simpl.
      * destruct (IH (mkReadSt (rd_sends st1) (S (rd_repeats st1))
           (rd_total_dropped st1) (rd_wkc_start st1) (rd_wkc_end st1)
           (rd_log st1 ++ [ActRepeatRequest]))) as [t2 H2].
        rewrite H2. simpl. rewrite H1, <- !app_assoc. eexists. reflexivity.
      * rewrite H1, <- app_assoc. eexists. reflexivity.
    + destruct (rd_wkc_start st1 =? 1); simpl; rewrite H1; [|rewrite <- app_assoc];
        eexists; reflexivity.
Qed.

(** Every attempt starts with a send. *)
Lemma tries_loop_sends env sp n st :
  exists t, rd_log (snd (tries_loop env sp (S n) st)) = rd_log st ++ ActSend :: t.
Proof.
  rewrite tries_loop_S. destruct (send_loop_log env 9 0 st) as [t1 H1].
  change (send_loop env 10 0 st) with (send_loop env MAX_DROPPED 0 st) in H1.
  destruct (send_loop env MAX_DROPPED 0 st) as [dropped st1]. simpl in H1.
  assert (Hst : forall st', (exists t, rd_log st' = rd_log st1 ++ t) ->
            exists t, rd_log (snd (false, st')) = rd_log st ++ ActSend :: t).
  { intros st' [t Ht]. simpl. rewrite Ht, H1, <- app_assoc. eexists. reflexivity. }
  assert (Hst1 : exists t, rd_log st1 = rd_log st1 ++ t)
    by (exists []; symmetry; apply app_nil_r).
  destruct (sp && negb (rd_wkc_start st1 =? rd_wkc_end st1)).
  { apply Hst, Hst1. }
  destruct (rd_wkc_start st1 =? 0).
  - destruct (Nat.eqb dropped 0).
    { apply Hst, Hst1. }
    unfold repeat_request. destruct (repeat_ok env (rd_repeats st1)).
    + destruct (tries_loop_log env sp n (mkReadSt (rd_sends st1) (S (rd_repeats st1))
         (rd_total_dropped st1) (rd_wkc_start st1) (rd_wkc_end st1)
         (rd_log st1 ++ [ActRepeatRequest]))) as [t2 H2].
      rewrite H2. simpl. rewrite H1, <- !app_assoc. eexists. reflexivity.
    + apply Hst. eexists. reflexivity.
  - destruct (rd_wkc_start st1 =? 1).
    + simpl. rewrite H1. eexists. reflexivity.
    + apply Hst. eexists. reflexivity.
Qed.

End ReadFacts.

Import ReadFacts.

(** C6, as stated: a working counter of 0 after at least one dropped
    packet leads to a repeat request followed by a new read.  When the
    repeat request fails, the read fails without another send. *)
Lemma refused_after_drop_counterexample :
  tx drop_then_refused_env 0 = TxDropped /\
  tx drop_then_refused_env 1 = TxOk 0 0 /\
  ~ (exists pre post,
       rd_log (snd (readMailboxInternal drop_then_refused_env true 10)) =
       pre ++ [ActRepeatRequest; ActSend] ++ post).
Proof.
  split; [reflexivity|]. split; [reflexivity|].
  intros [pre [post H]]. vm_compute in H.
  destruct pre as [|a [|b [|c pre]]]; simpl in H; try discriminate;
    injection H as _ _ H; destruct pre; discriminate.
Qed.

(** C6, amended: in [readMailboxInternal], an attempt whose [read_start]
    working counter is 0 with no packet dropped in that attempt fails the
    read at once, after that single send, with no repeat request.  When the
    counter is 0 after at least one dropped packet: a split read whose
    [read_end] counter differs fails at once; otherwise a repeat request is
    issued, a failed repeat request fails the read with no further send,
    and a successful one starts a new attempt (a new send) if attempts
    remain out of [MAX_TRIES], and otherwise ends the read in failure. *)
Theorem read_refusal_handling (env : ReadEnv) (sp : bool) (left : nat) (st : ReadSt)
    (dropped : nat) (st1 : ReadSt) :
  send_loop env MAX_DROPPED 0 st = (dropped, st1) ->
  rd_wkc_start st1 = 0 ->
  (dropped = 0%nat ->
     tries_loop env sp (S left) st = (false, st1) /\
     rd_log st1 = rd_log st ++ [ActSend]) /\
  (dropped <> 0%nat -> sp = true -> rd_wkc_end st1 <> 0 ->
     tries_loop env sp (S left) st = (false, st1)) /\
  (dropped <> 0%nat -> (sp = false \/ rd_wkc_end st1 = 0) ->
     let st2 := snd (repeat_request env st1) in
     rd_log st2 = rd_log st1 ++ [ActRepeatRequest] /\
     (repeat_ok env (rd_repeats st1) = false ->
        tries_loop env sp (S left) st = (false, st2)) /\
     (repeat_ok env (rd_repeats st1) = true -> left = 0%nat ->
        tries_loop env sp (S left) st = (false, log_diagnose st2)) /\
     (repeat_ok env (rd_repeats st1) = true -> left <> 0%nat ->
        tries_loop env sp (S left) st = tries_loop env sp left st2 /\
        exists t, rd_log (snd (tries_loop env sp (S left) st)) =
                  rd_log st2 ++ ActSend :: t)).
Proof.
  intros Hs Hw. rewrite tries_loop_S, Hs, Hw. split; [|split].
  - intros ->. split.
    + simpl. destruct (sp && _); reflexivity.
    + pose proof (send_loop_no_drop env 9 st) as Hn.
      change (send_loop env 10 0 st) with (send_loop env MAX_DROPPED 0 st) in Hn.
      rewrite Hs in Hn. apply Hn. reflexivity.
  - intros Hd -> He. simpl.
    destruct (rd_wkc_end st1); [congruence|reflexivity|reflexivity].
  - intros Hd Hsp.
    assert (Hc : sp && negb (0 =? rd_wkc_end st1) = false).
    { destruct Hsp as [-> | ->]; [reflexivity | apply andb_false_r]. }
    rewrite Hc. destruct dropped as [|d]; [congruence|]. simpl.
    split; [reflexivity|]. split; [|split].
    + intros ->. reflexivity.
    + intros -> ->. reflexivity.
    + intros -> Hl. split; [reflexivity|].
      destruct left as [|l]; [congruence|]. apply tries_loop_sends.
Qed.

Lemma read_refusal_handling_witness :
  tries_loop drop_then_retry_env true 10 (read_init drop_then_retry_env) =
  tries_loop drop_then_retry_env true 9
    (snd (repeat_request drop_then_retry_env
            (snd (send_loop drop_then_retry_env MAX_DROPPED 0 (read_init drop_then_retry_env))))).
Proof.
  apply (proj2 (proj2 (read_refusal_handling drop_then_retry_env true 9
           (read_init drop_then_retry_env) 1
           (snd (send_loop drop_then_retry_env MAX_DROPPED 0 (read_init drop_then_retry_env)))
           eq_refl eq_refl))); try (vm_compute; congruence); auto.
Defined.

(** When the caller's buffer is [actuator_info_] itself and the whole
    264-byte record is read, the [memset] of the caller's buffer zeroes
    [actuator_info_] before it is written out, so the scratch write is all
    zeros: the zeroing works on this path only through the aliasing. *)
Lemma readEepromPage_alias_scratch_zero (env : EepromEnv) (m : Mem) (page : Z) :
  length (actuator_info_ m) = 264%nat ->
  page < NUM_EEPROM_PAGES ->
  scratch_bytes (snd (fst (readEepromPage env m page ActuatorInfoBuf 264))) =
    Some (repeat 0 264).
Proof.
  intros Hl Hp. unfold readEepromPage.
  replace (NUM_EEPROM_PAGES <=? page) with false
    by (symmetry; apply Z.leb_gt; assumption).
  simpl. unfold overwrite_prefix. rewrite firstn_all2 by (simpl; lia).
  rewrite skipn_all2 by (rewrite Hl; simpl; lia). rewrite app_nil_r.
  destruct (e_write_ok env), (e_spi_ok env), (e_read env); reflexivity.
Qed.

(** C7: [readEepromPage] does not zero the scratch buffer when the
    caller's buffer is not [actuator_info_]: reading the 256-byte motor
    heating model page after [actuator_info_] has been loaded writes the
    bytes of [actuator_info_], not zeros, to the SPI buffer before the SPI
    read command. *)
Theorem readEepromPage_scratch_not_zeroed :
  scratch_bytes (snd (fst (readEepromPage eeprom_ok_env loaded_mem 4095 OtherBuf 256))) =
    Some programmed_actuator_info /\
  nth 0 programmed_actuator_info 0 <> 0 /\
  match snd (fst (readEepromPage eeprom_ok_env loaded_mem 4095 OtherBuf 256)) with
  | OpMbxWrite a _ :: OpSpiRead p :: OpMbxRead a' _ :: _ => a = SPI_BUFFER_ADDR /\ p = 4095 /\ a' = SPI_BUFFER_ADDR
  | _ => False
  end.
Proof. vm_compute. repeat split; discriminate. Qed.

(* ------------------------------------------------------------------ *)
(** ** Bit-level helpers *)

Module BitFacts.

Lemma high_bits_zero (n a m : Z) : 0 <= a < 2 ^ n -> 0 <= n <= m -> Z.testbit a m = false.
Proof.
  intros Ha Hm. rewrite <- (Z.mod_small a (2 ^ n)) by lia.
  apply Z.mod_pow2_bits_high; lia.
Qed.

Lemma lxor_range (n a b : Z) :
  0 <= n -> 0 <= a < 2 ^ n -> 0 <= b < 2 ^ n -> 0 <= Z.lxor a b < 2 ^ n.
Proof.
  intros Hn Ha Hb.
  assert (E : Z.lxor a b = Z.lxor a b mod 2 ^ n).
  { apply Z.bits_inj'; intros m Hm.
    destruct (Z.lt_ge_cases m n) as [Hlt | Hge].
    - rewrite Z.mod_pow2_bits_low by lia. reflexivity.
    - rewrite Z.mod_pow2_bits_high by lia. rewrite Z.lxor_spec.
      rewrite (high_bits_zero n a m), (high_bits_zero n b m) by lia. reflexivity. }
  rewrite E. apply Z.mod_pos_bound. apply Z.pow_pos_nonneg; lia.
Qed.

Lemma lxor_cancel_l (a x y : Z) : Z.lxor a x = Z.lxor a y -> x = y.
Proof.
  intros H. apply (f_equal (Z.lxor a)) in H.
  rewrite <- !Z.lxor_assoc, Z.lxor_nilpotent, !Z.lxor_0_l in H. exact H.
Qed.

Lemma land_255_range (x : Z) : 0 <= Z.land x 255 < 256.
Proof.
  change 255 with (Z.ones 8). rewrite Z.land_ones by lia.
  apply Z.mod_pos_bound; lia.
Qed.

Lemma land_255_small (x : Z) : 0 <= x < 256 -> Z.land x 255 = x.
Proof.
  intros H. change 255 with (Z.ones 8). rewrite Z.land_ones by lia.
  apply Z.mod_small; exact H.
Qed.

(** Masking an exclusive or with a byte operand to eight bits. *)
Lemma land_lxor_255 (a d : Z) : 0 <= a < 256 -> Z.land (Z.lxor a d) 255 = Z.lxor a (Z.land d 255).
Proof.
  intros Ha. apply Z.bits_inj'; intros m Hm.
  rewrite Z.land_spec, !Z.lxor_spec, Z.land_spec.
  change 255 with (Z.ones 8).
  destruct (Z.lt_ge_cases m 8) as [Hlt | Hge].
  - rewrite Z.ones_spec_low by lia. rewrite !andb_true_r. reflexivity.
  - rewrite Z.ones_spec_high by lia. rewrite (high_bits_zero 8 a m) by (simpl; lia).
    rewrite !andb_false_r. reflexivity.
Qed.

End BitFacts.

(* ------------------------------------------------------------------ *)
(** ** Wrap-around time and position arithmetic *)

Module TimingFacts.
Import Timing.

Lemma int32_small (d : Z) : - 2 ^ 31 <= d < 2 ^ 31 -> int32 d = d.
Proof.
  intros H. unfold int32.
  destruct (Z.le_gt_cases 0 d) as [Hp | Hn].
  - rewrite Z.mod_small by lia.
    destruct (2 ^ 31 <=? d) eqn:E; [apply Z.leb_le in E; lia | reflexivity].
  - replace (d mod 2 ^ 32) with (d + 2 ^ 32).
    + destruct (2 ^ 31 <=? d + 2 ^ 32) eqn:E; [lia | apply Z.leb_gt in E; lia].
    + rewrite <- (Z.mod_small (d + 2 ^ 32) (2 ^ 32)) by lia.
      replace (d + 2 ^ 32) with (d + 1 * 2 ^ 32) by ring.
      apply Z_mod_plus_full.
Qed.

Lemma int32_congr (x y : Z) : x mod 2 ^ 32 = y mod 2 ^ 32 -> int32 x = int32 y.
Proof. intros H. unfold int32. rewrite H. reflexivity. Qed.


Lemma int32_range (x : Z) : - 2 ^ 31 <= int32 x < 2 ^ 31.
Proof.
  unfold int32. pose proof (Z.mod_pos_bound x (2 ^ 32) ltac:(lia)).
  destruct (2 ^ 31 <=? x mod 2 ^ 32) eqn:E;
    [apply Z.leb_le in E | apply Z.leb_gt in E]; lia.
Qed.

End TimingFacts.

Module ChecksumFacts2.
Import Checksum ChecksumInv BitFacts.

Lemma rotateRight8_range (x : Z) : 0 <= rotateRight8 x < 256.
Proof. unfold rotateRight8. apply land_255_range. Qed.

Lemma rotateLeft8_rotateRight8 (x : Z) : 0 <= x < 256 -> rotateLeft8 (rotateRight8 x) = x.
Proof.
  intros Hx.
  assert (Hall : forallb (fun n => Z.eqb (rotateLeft8 (rotateRight8 (Z.of_nat n))) (Z.of_nat n))
                         (seq 0 256) = true) by (vm_compute; reflexivity).
  rewrite forallb_forall in Hall.
  specialize (Hall (Z.to_nat x)). rewrite Z2Nat.id in Hall by lia.
  apply Z.eqb_eq, Hall, in_seq. lia.
Qed.

Lemma checksum_step_range (c d : Z) : 0 <= checksum_step c d < 256.
Proof. unfold checksum_step. apply land_255_range. Qed.

Lemma checksum_step_inj_acc (c c' d : Z) :
  0 <= c < 256 -> 0 <= c' < 256 -> checksum_step c d = checksum_step c' d -> c = c'.
Proof.
  intros Hc Hc' H. unfold checksum_step in H.
  rewrite !land_lxor_255 in H by apply rotateRight8_range.
  rewrite !(Z.lxor_comm (rotateRight8 _)) in H.
  apply lxor_cancel_l in H.
  rewrite <- (rotateLeft8_rotateRight8 c), <- (rotateLeft8_rotateRight8 c') by lia.
  rewrite H. reflexivity.
Qed.

Lemma checksum_step_inj_byte (c d d' : Z) :
  0 <= d < 256 -> 0 <= d' < 256 -> checksum_step c d = checksum_step c d' -> d = d'.
Proof.
  intros Hd Hd' H. unfold checksum_step in H.
  rewrite !land_lxor_255 in H by apply rotateRight8_range.
  rewrite !land_255_small in H by lia.
  apply lxor_cancel_l in H. exact H.
Qed.

Lemma fold_checksum_inj (post : list Z) : forall c c',
  0 <= c < 256 -> 0 <= c' < 256 ->
  fold_left checksum_step post c = fold_left checksum_step post c' -> c = c'.
Proof.
  induction post as [| x post IH]; simpl; intros c c' Hc Hc' H.
  - exact H.
  - apply checksum_step_inj_acc with x; [exact Hc | exact Hc' |].
    apply IH; [apply checksum_step_range | apply checksum_step_range | exact H].
Qed.

(** Changing one byte of a buffer changes its checksum. *)
Lemma computeChecksum_one_byte (pre post : list Z) (a b : Z) :
  0 <= a < 256 -> 0 <= b < 256 -> a <> b ->
  computeChecksum (pre ++ a :: post) <> computeChecksum (pre ++ b :: post).
Proof.
  intros Ha Hb Hab H. unfold computeChecksum in H.
  rewrite !fold_left_app in H. simpl in H.
  apply fold_checksum_inj in H; [| apply checksum_step_range | apply checksum_step_range].
  apply checksum_step_inj_byte in H; [| exact Ha | exact Hb]. contradiction.
Qed.

End ChecksumFacts2.

Import Timing TimingFacts.

(** [WG0X::timestampDiff] undoes any wrap-around of the 32-bit timestamp:
    if the new timestamp is the old one advanced by [d] modulo 2^32, with
    [d] in the [int32_t] range, the difference is [d] (so
    [timestampDiff 1 0xFFFFFFFF = 2]). *)
Theorem timestampDiff_wraps (old d : Z) (Hd : - 2 ^ 31 <= d < 2 ^ 31) :
  timestampDiff ((old + d) mod 2 ^ 32) old = d.
Proof.
  unfold timestampDiff. rewrite <- (int32_small d Hd) at 2.
  apply int32_congr. rewrite Z.mod_mod by lia.
  rewrite Zminus_mod_idemp_l. f_equal. ring.
Qed.

Lemma timestampDiff_wraps_witness :
  - 2 ^ 31 <= 2 < 2 ^ 31 /\ (4294967295 + 2) mod 2 ^ 32 = 1 /\
  timestampDiff ((4294967295 + 2) mod 2 ^ 32) 4294967295 = 2.
Proof.
  split; [lia |]. split; [reflexivity |].
  apply timestampDiff_wraps. lia.
Defined.



(** [WG0X::timediffToDuration] loses nothing: the seconds and nanoseconds
    it passes on add up to exactly the microsecond difference, the
    nanoseconds stay below one second in magnitude, and both parts carry
    the sign of the difference (C++ division truncates toward zero). *)
Theorem timediffToDuration_exact (t : Z) :
  let '(sec, nsec) := timediffToDuration t in
  sec * 1000000000 + nsec = t * 1000 /\
  - 1000000000 < nsec < 1000000000 /\
  (0 <= t -> 0 <= sec /\ 0 <= nsec) /\
  (t <= 0 -> sec <= 0 /\ nsec <= 0).
Proof.
  unfold timediffToDuration, USEC_PER_SEC.
  pose proof (Z.quot_rem' t 1000000) as Hqr.
  pose proof (Z.rem_bound_abs t 1000000 ltac:(lia)) as Hb.
  set (q := Z.quot t 1000000) in *. set (r := Z.rem t 1000000) in *.
  assert (Hr1 : 0 <= t -> 0 <= r) by (intros; apply Z.rem_nonneg; lia).
  assert (Hr2 : t <= 0 -> r <= 0) by (intros; apply Z.rem_nonpos; lia).
  split; [lia |]. split; [lia |]. split; intros; split; lia.
Qed.

(** [timediff_ms] rounds the elapsed time down to whole milliseconds when
    the nanosecond field has not wrapped ([current.tv_nsec >=
    start.tv_nsec]), and up when it has, for normalised [timespec]s less
    than 2,000,000 s apart. *)
Theorem timediff_ms_rounding (current start : timespec)
    (Hc : 0 <= tv_nsec current < 1000000000)
    (Hs : 0 <= tv_nsec start < 1000000000)
    (Hd : 0 <= tv_sec current - tv_sec start <= 2000000) :
  let elapsed_ns := (tv_sec current - tv_sec start) * 1000000000
                    + (tv_nsec current - tv_nsec start) in
  (tv_nsec start <= tv_nsec current ->
     timediff_ms current start * 1000000 <= elapsed_ns
     < timediff_ms current start * 1000000 + 1000000) /\
  (tv_nsec current < tv_nsec start ->
     timediff_ms current start * 1000000 - 1000000 < elapsed_ns
     <= timediff_ms current start * 1000000).
Proof.
  intros elapsed_ns. unfold elapsed_ns, timediff_ms.
  set (D := tv_sec current - tv_sec start) in *.
  set (n := tv_nsec current - tv_nsec start).
  pose proof (Z.quot_rem' n 1000000) as Hqr.
  pose proof (Z.rem_bound_abs n 1000000 ltac:(lia)) as Hb.
  set (q := Z.quot n 1000000) in *. set (r := Z.rem n 1000000) in *.
  assert (Hr1 : 0 <= n -> 0 <= r) by (intros; apply Z.rem_nonneg; lia).
  assert (Hr2 : n <= 0 -> r <= 0) by (intros; apply Z.rem_nonpos; lia).
  assert (Hn : - 1000000000 < n < 1000000000) by (unfold n; lia).
  rewrite int32_small by lia.
  split; intros; unfold n in *; lia.
Qed.

Lemma timediff_ms_rounding_witness :
  timediff_ms (mkTimespec 1 0) (mkTimespec 0 1) = 1000 /\
  1000 * 1000000 - 1000000 < 999999999 <= 1000 * 1000000.
Proof.
  split; [vm_compute; reflexivity |].
  pose proof (timediff_ms_rounding (mkTimespec 1 0) (mkTimespec 0 1)
                ltac:(simpl; lia) ltac:(simpl; lia) ltac:(simpl; lia)) as [_ H].
  change (timediff_ms (mkTimespec 1 0) (mkTimespec 0 1)) with 1000 in H.
  exact (H ltac:(simpl; lia)).
Defined.

Import Cycle.

(** [WG0X::timestamp_jump] reports every step backwards in time: for a
    threshold [amount] below 2^32, a timestamp [k] ticks behind the last
    one (with [k < 2^32 - amount]) is a jump, while a timestamp at most
    [amount] ticks ahead is not. *)
Theorem timestamp_jump_reverse (last amount : Z) (Ha : 0 <= amount < 2 ^ 32) :
  (forall k, 1 <= k < 2 ^ 32 - amount -> timestamp_jump (u32 (last - k)) last amount = true) /\
  (forall d, 0 <= d <= amount -> timestamp_jump (u32 (last + d)) last amount = false).
Proof.
  unfold timestamp_jump, u32. split; intros x Hx.
  - rewrite Zminus_mod_idemp_l.
    replace (last - x - last) with ((2 ^ 32 - x) + (-1) * 2 ^ 32) by ring.
    rewrite Z_mod_plus_full, Z.mod_small by lia. apply Z.ltb_lt. lia.
  - rewrite Zminus_mod_idemp_l.
    replace (last + x - last) with x by ring.
    rewrite Z.mod_small by lia. apply Z.ltb_ge. lia.
Qed.

Lemma timestamp_jump_reverse_witness :
  0 <= 10000000 < 2 ^ 32 /\ timestamp_jump (u32 (5 - 10)) 5 10000000 = true.
Proof.
  split; [lia |].
  apply (proj1 (timestamp_jump_reverse 5 10000000 ltac:(lia))). lia.
Defined.

Import Checksum ChecksumFacts2.

(** [WG0X::computeChecksum] detects every single-byte error: two buffers
    that differ in exactly one byte have different checksums. *)
Theorem computeChecksum_detects_byte_change (pre post : list Z) (a b : Z)
    (Ha : 0 <= a < 256) (Hb : 0 <= b < 256) (Hab : a <> b) :
  computeChecksum (pre ++ a :: post) <> computeChecksum (pre ++ b :: post).
Proof. apply computeChecksum_one_byte; assumption. Qed.

Lemma computeChecksum_detects_byte_change_witness :
  0 <= 7 < 256 /\ 0 <= 8 < 256 /\ 7 <> 8 /\
  computeChecksum ([1] ++ 7 :: [3]) <> computeChecksum ([1] ++ 8 :: [3]).
Proof.
  split; [lia |]. split; [lia |]. split; [lia |].
  apply computeChecksum_detects_byte_change; lia.
Defined.

(* ------------------------------------------------------------------ *)
(** ** Mailbox transport *)

Module TransportFacts.
Import MbxEngine Transport.

(** What [txandrx_retry] returns: either every send was dropped, or the
    first send that came back is the [k]-th one. *)
Lemma txandrx_retry_spec (txf : nat -> TxResult) (fuel : nat) : forall n,
  match txandrx_retry txf fuel n with
  | (None, s) => s = (n + fuel)%nat /\ (forall j, (n <= j < n + fuel)%nat -> txf j = TxDropped)
  | (Some (ws, we), s) =>
      exists k, (n <= k < n + fuel)%nat /\ s = S k /\
        (forall j, (n <= j < k)%nat -> txf j = TxDropped) /\ txf k = TxOk ws we
  end.
Proof.
  induction fuel as [| f IH]; intros n; simpl.
  - split; [lia | intros; lia].
  - destruct (txf n) as [| ws we] eqn:Et.
    + specialize (IH (S n)).
      destruct (txandrx_retry txf f (S n)) as [[[ws we] |] s].
      * destruct IH as (k & Hk & Hs & Hd & Ho). exists k.
        split; [lia |]. split; [exact Hs |]. split; [| exact Ho].
        intros j Hj. destruct (Nat.eq_dec j n); [subst; exact Et | apply Hd; lia].
      * destruct IH as [Hs Hd]. split; [lia |].
        intros j Hj. destruct (Nat.eq_dec j n); [subst; exact Et | apply Hd; lia].
    + exists n. split; [lia |]. split; [reflexivity |]. split; [intros; lia | exact Et].
Qed.

(** The first send that comes back determines the result. *)
Lemma txandrx_retry_first (txf : nat -> TxResult) (fuel k : nat) (ws we : Z) :
  (k < fuel)%nat -> (forall j, (j < k)%nat -> txf j = TxDropped) -> txf k = TxOk ws we ->
  txandrx_retry txf fuel 0 = (Some (ws, we), S k).
Proof.
  intros Hk Hd Ho. pose proof (txandrx_retry_spec txf fuel 0) as H.
  destruct (txandrx_retry txf fuel 0) as [[[ws' we'] |] s].
  - destruct H as (k' & Hk' & Hs & Hd' & Ho').
    destruct (Nat.lt_total k k') as [Hlt | [Heq | Hgt]].
    + rewrite Hd' in Ho by lia. discriminate.
    + subst k'. rewrite Ho in Ho'. injection Ho' as <- <-. subst. reflexivity.
    + rewrite Hd in Ho' by lia. discriminate.
  - destruct H as [_ Hd']. rewrite Hd' in Ho by lia. discriminate.
Qed.

Lemma txandrx_retry_le (txf : nat -> TxResult) (fuel : nat) :
  (snd (txandrx_retry txf fuel 0) <= fuel)%nat.
Proof.
  pose proof (txandrx_retry_spec txf fuel 0) as H.
  destruct (txandrx_retry txf fuel 0) as [[[ws we] |] s]; simpl.
  - destruct H as (k & Hk & Hs & _). lia.
  - destruct H as [Hs _]. lia.
Qed.

End TransportFacts.

Import MbxEngine Transport TransportFacts.

(** [WG0X::clearReadMailbox] sends its frame at most 15 times, and
    succeeds exactly when one of the first 15 sends comes back and the
    first that does carries two equal working counters of at most 1 (a
    count of 1, stale data in the mailbox, is accepted). *)
Theorem clearReadMailbox_spec (txf : nat -> TxResult) :
  (snd (clearReadMailbox true txf) <= 15)%nat /\
  (fst (clearReadMailbox true txf) = true <->
   exists k w, (k < 15)%nat /\ (forall j, (j < k)%nat -> txf j = TxDropped) /\
               txf k = TxOk w w /\ w <= 1).
Proof.
  unfold clearReadMailbox, MAX_DROPS. simpl negb. cbv iota.
  pose proof (txandrx_retry_le txf 15) as Hle.
  pose proof (txandrx_retry_spec txf 15 0) as Hs.
  destruct (txandrx_retry txf 15 0) as [[[ws we] |] s] eqn:E; simpl in Hle |- *.
  - destruct Hs as (k & Hk & Hsk & Hd & Ho).
    split.
    + destruct (negb (ws =? we)); [exact Hle |]. destruct (1 <? ws); exact Hle.
    + split.
      * destruct (ws =? we) eqn:E1; simpl; [| discriminate].
        destruct (1 <? ws) eqn:E2; [discriminate |]. intros _.
        apply Z.eqb_eq in E1. apply Z.ltb_ge in E2. subst we.
        exists k, ws. split; [lia |]. split; [intros j Hj; apply Hd; lia |]. split; assumption.
      * intros (k' & w & Hk' & Hd' & Ho' & Hw).
        rewrite (txandrx_retry_first txf 15 k' w w) in E by assumption.
        injection E as <- <- <-. rewrite Z.eqb_refl. simpl.
        replace (1 <? w) with false by (symmetry; apply Z.ltb_ge; exact Hw). reflexivity.
  - destruct Hs as [Hsk Hd]. split; [exact Hle |].
    split; [discriminate |].
    intros (k' & w & Hk' & _ & Ho' & _). rewrite Hd in Ho' by lia. discriminate.
Qed.

(** [WG0X::writeMailboxInternal] accepts a refused write (working counter
    0) exactly when an earlier send of the same frame was dropped: when the
    first send that comes back is the [k]-th, with counters [(0, 0)], the
    write succeeds iff [k >= 1]. *)
Theorem writeMailboxInternal_refusal (txf : nat -> TxResult) (len : Z) (k : nat)
    (Hlen : len <= MBX_COMMAND_SIZE) (Hk : (k < 10)%nat)
    (Hd : forall j, (j < k)%nat -> txf j = TxDropped) (Ho : txf k = TxOk 0 0) :
  writeMailboxInternal true txf len = (negb (Nat.eqb k 0), S k).
Proof.
  unfold writeMailboxInternal.
  replace (MBX_COMMAND_SIZE <? len) with false by (symmetry; apply Z.ltb_ge; exact Hlen).
  simpl negb. cbv iota.
  rewrite (txandrx_retry_first txf 10 k 0 0) by assumption.
  simpl. rewrite andb_false_r.
  destruct k as [| k']; reflexivity.
Qed.

Lemma writeMailboxInternal_refusal_witness :
  writeMailboxInternal true (fun n => match n with O => TxDropped | _ => TxOk 0 0 end) 5
    = (true, 2%nat) /\
  writeMailboxInternal true refused_tx 5 = (false, 1%nat).
Proof.
  split.
  - apply (writeMailboxInternal_refusal _ 5 1); [unfold MBX_COMMAND_SIZE, MBX_SIZE; lia | lia | |].
    + intros j Hj. destruct j; [reflexivity | lia].
    + reflexivity.
  - apply (writeMailboxInternal_refusal _ 5 0); [unfold MBX_COMMAND_SIZE, MBX_SIZE; lia | lia | |].
    + intros j Hj. lia.
    + reflexivity.
Defined.

(** [WG0X::writeMailboxInternal] sends its frame at most 10 times, and
    fails after exactly 10 sends when all of them are dropped. *)
Theorem writeMailboxInternal_bounded (device_ok : bool) (txf : nat -> TxResult) (len : Z) :
  (snd (writeMailboxInternal device_ok txf len) <= 10)%nat /\
  (device_ok = true -> len <= MBX_COMMAND_SIZE ->
   (forall j, (j < 10)%nat -> txf j = TxDropped) ->
   writeMailboxInternal device_ok txf len = (false, 10%nat)).
Proof.
  unfold writeMailboxInternal.
  pose proof (txandrx_retry_le txf 10) as Hle.
  pose proof (txandrx_retry_spec txf 10 0) as Hs.
  split.
  - destruct (MBX_COMMAND_SIZE <? len); [simpl; lia |].
    destruct (negb device_ok); [simpl; lia |].
    destruct (txandrx_retry txf 10 0) as [[[ws we] |] s]; simpl in Hle |- *; [| exact Hle].
    destruct (_ && _); [exact Hle |]. destruct (1 <? ws); [exact Hle |].
    destruct (negb (ws =? 1)); [| exact Hle]. destruct (Nat.leb s 1); exact Hle.
  - intros -> Hlen Hd.
    replace (MBX_COMMAND_SIZE <? len) with false by (symmetry; apply Z.ltb_ge; exact Hlen).
    simpl negb. cbv iota.
    destruct (txandrx_retry txf 10 0) as [[[ws we] |] s].
    + destruct Hs as (k & Hk & _ & _ & Ho). rewrite Hd in Ho by lia. discriminate.
    + destruct Hs as [-> _]. reflexivity.
Qed.

Lemma writeMailboxInternal_bounded_witness :
  writeMailboxInternal true (fun _ => TxDropped) 5 = (false, 10%nat).
Proof.
  apply (writeMailboxInternal_bounded true (fun _ => TxDropped) 5);
    [reflexivity | unfold MBX_COMMAND_SIZE, MBX_SIZE; lia | intros; reflexivity].
Defined.

Import Checksum Eeprom.

(** [readMailbox_] with the device in SAFEOP or OP fails whenever the
    reply differs in one byte from a reply with a valid checksum: it
    returns -1 and leaves the caller's buffer untouched. *)
Theorem readMailbox_rejects_corrupted_reply (env : ReadMbxEnv) (address len : Z)
    (data pre post : list Z) (a b : Z)
    (Hdev : r_device_ok env = true)
    (Hreply : r_reply env = pre ++ a :: post)
    (Hlen : Z.of_nat (List.length (pre ++ a :: post)) = len + 1)
    (Hvalid : computeChecksum (pre ++ b :: post) = 0)
    (Ha : 0 <= a < 256) (Hb : 0 <= b < 256) (Hab : a <> b) :
  readMailbox_ env address len data = (-1, data).
Proof.
  unfold readMailbox_. rewrite Hdev. cbn [negb].
  destruct (fst (clearReadMailbox true (r_clear_tx env))); cbn [negb]; [| reflexivity].
  destruct (cmd_build _ _ _ _ _); [| reflexivity].
  destruct (fst (writeMailboxInternal true (r_write_tx env) MBX_HDR_SIZE)); cbn [negb];
    [| reflexivity].
  destruct (r_ready_ok env); cbn [negb]; [| reflexivity].
  destruct (fst (readMailboxInternal (r_read_env env) true (len + 1))); cbn [negb];
    [| reflexivity].
  assert (Hstat : reply_bytes (r_reply env) (Z.to_nat (len + 1)) = pre ++ a :: post).
  { rewrite Hreply, <- Hlen, Nat2Z.id. unfold reply_bytes.
    rewrite firstn_app, firstn_all, Nat.sub_diag. simpl. apply app_nil_r. }
  rewrite Hstat.
  destruct (computeChecksum (pre ++ a :: post) =? 0) eqn:E; [| reflexivity].
  apply Z.eqb_eq in E. exfalso.
  apply (computeChecksum_one_byte pre post a b Ha Hb Hab). rewrite E, Hvalid. reflexivity.
Qed.

Lemma readMailbox_rejects_corrupted_reply_witness :
  readMailbox_ (mkReadMbxEnv true ok_tx 1 ok_tx true (mkReadEnv ok_tx (fun _ => true) 0)
                  ([1; 2] ++ 7 :: [rotateRight8 (computeChecksum [1; 2; 3])]))
               100 3 [9; 9; 9] = (-1, [9; 9; 9]).
Proof.
  apply (readMailbox_rejects_corrupted_reply _ 100 3 [9; 9; 9] [1; 2]
           [rotateRight8 (computeChecksum [1; 2; 3])] 7 3);
    [reflexivity | reflexivity | reflexivity | vm_compute; reflexivity | lia | lia | lia].
Defined.

(** What a result of 0 from [WG0X::readMailbox] means: no read error is
    counted, and either the device was outside SAFEOP and OP (the
    device-state check of [readMailbox_] returns [false], that is 0) and
    the buffer is left as it was, or the [length + 1] bytes read back have
    a zero checksum fold and their first [length] bytes were copied to the
    buffer. *)
Theorem readMailbox_zero_result (env : ReadMbxEnv) (address len : Z)
    (data data' : list Z) (errs errs' : Z)
    (H : readMailbox true env address len data errs = (0, data', errs')) :
  errs' = errs /\
  ((r_device_ok env = false /\ data' = data) \/
   (r_device_ok env = true /\
    computeChecksum (reply_bytes (r_reply env) (Z.to_nat (len + 1))) = 0 /\
    data' = overwrite_prefix data (reply_bytes (r_reply env) (Z.to_nat (len + 1)))
                             (Z.to_nat len))).
Proof.
  unfold readMailbox in H. cbn [negb] in H.
  destruct (readMailbox_ env address len data) as [res d] eqn:E.
  injection H as Hres Hd He. subst res d.
  split; [rewrite <- He; reflexivity |].
  unfold readMailbox_ in E.
  destruct (r_device_ok env); cbn [negb] in E.
  2: { injection E as <-. left. split; reflexivity. }
  right. split; [reflexivity |].
  destruct (fst (clearReadMailbox true (r_clear_tx env))); cbn [negb] in E;
    [| discriminate].
  destruct (cmd_build _ _ _ _ _); [| discriminate].
  destruct (fst (writeMailboxInternal true (r_write_tx env) MBX_HDR_SIZE)); cbn [negb] in E;
    [| discriminate].
  destruct (r_ready_ok env); cbn [negb] in E; [| discriminate].
  destruct (fst (readMailboxInternal (r_read_env env) true (len + 1))); cbn [negb] in E;
    [| discriminate].
  destruct (computeChecksum (reply_bytes (r_reply env) (Z.to_nat (len + 1))) =? 0) eqn:Ec;
    cbn [negb] in E; [| discriminate].
  apply Z.eqb_eq in Ec. injection E as <-. split; [exact Ec | reflexivity].
Qed.

Lemma readMailbox_zero_result_witness :
  readMailbox true device_down_env 100 3 [9; 9; 9] 4 = (0, [9; 9; 9], 4) /\
  r_device_ok device_down_env = false /\
  readMailbox true good_read_env 100 3 [9; 9; 9] 4 = (0, [1; 2; 3], 4) /\
  (4 = 4 /\
   ((r_device_ok device_down_env = false /\ [9; 9; 9] = [9; 9; 9]) \/
    (r_device_ok device_down_env = true /\
     computeChecksum (reply_bytes (r_reply device_down_env) (Z.to_nat (3 + 1))) = 0 /\
     [9; 9; 9] = overwrite_prefix [9; 9; 9]
                   (reply_bytes (r_reply device_down_env) (Z.to_nat (3 + 1))) (Z.to_nat 3)))).
Proof.
  split; [vm_compute; reflexivity |].
  split; [reflexivity |].
  split; [vm_compute; reflexivity |].
  apply (readMailbox_zero_result device_down_env 100 3 [9; 9; 9] [9; 9; 9] 4 4).
  vm_compute. reflexivity.
Defined.

(* ------------------------------------------------------------------ *)
(** ** SPI EEPROM state machine *)

Module SpiFacts.
Import Eeprom Spi.

Ltac spi_simpl :=
  cbn [negb n_cmd_reads n_writes n_buf_reads spi_log fst snd] in *.

Lemma repeat_snoc {A} (x : A) (k : nat) : repeat x k ++ [x] = repeat x (S k).
Proof. induction k as [| k IH]; simpl; [reflexivity | rewrite IH; reflexivity]. Qed.

Lemma log_snoc_repeat (log : list SpiOp) (k : nat) :
  (log ++ [OpReadCmd]) ++ repeat OpReadCmd k = log ++ repeat OpReadCmd (S k).
Proof. rewrite <- app_assoc. reflexivity. Qed.

(** The polls of [waitForSpiEepromReady]: only reads of the command
    register, at most [fuel] of them, the last one not busy on success. *)
Lemma wait_spi_loop_spec (env : SpiEnv) (fuel : nat) : forall tries st,
  let '(ok, st') := wait_spi_loop env fuel tries st in
  n_writes st' = n_writes st /\ n_buf_reads st' = n_buf_reads st /\
  (n_cmd_reads st <= n_cmd_reads st' <= n_cmd_reads st + fuel)%nat /\
  spi_log st' = spi_log st ++ repeat OpReadCmd (n_cmd_reads st' - n_cmd_reads st) /\
  (ok = true -> (n_cmd_reads st < n_cmd_reads st')%nat /\
     exists c, cmd_read env (n_cmd_reads st' - 1) = Some c /\ busy_ c = false).
Proof.
  induction fuel as [| f IH]; intros tries st; cbn [wait_spi_loop readback_loop wait_eeprom_loop readSpiEepromCmd n_cmd_reads n_writes n_buf_reads spi_log].
  - spi_simpl. rewrite Nat.sub_diag, app_nil_r. repeat split; try lia; try discriminate.
  - destruct (cmd_read env (n_cmd_reads st)) as [c |] eqn:Ec.
    + destruct (busy_ c) eqn:Eb; spi_simpl.
      * destruct (Nat.leb (S tries) 10); spi_simpl.
        -- specialize (IH (S tries) (mkSpiSt (n_writes st) (S (n_cmd_reads st))
                                           (n_buf_reads st) (spi_log st ++ [OpReadCmd]))).
           destruct (wait_spi_loop env f (S tries) _) as [ok st'].
           simpl in IH. destruct IH as (H1 & H2 & H3 & H4 & H5).
           split; [exact H1 |]. split; [exact H2 |]. split; [lia |].
           split.
           ++ rewrite H4, log_snoc_repeat. f_equal. f_equal. lia.
           ++ intros Hok. destruct (H5 Hok) as [Hlt Hc]. split; [lia | exact Hc].
        -- repeat split; try lia; try discriminate.
           replace (S (n_cmd_reads st) - n_cmd_reads st)%nat with 1%nat by lia. reflexivity.
      * repeat split; try lia.
        -- replace (S (n_cmd_reads st) - n_cmd_reads st)%nat with 1%nat by lia. reflexivity.
        -- exists c. rewrite Nat.sub_1_r. simpl. split; assumption.
    + spi_simpl. repeat split; try lia; try discriminate.
      replace (S (n_cmd_reads st) - n_cmd_reads st)%nat with 1%nat by lia. reflexivity.
Qed.

(** Against a device that stays busy, the loop reads the command register
    once per remaining try. *)
Lemma wait_spi_loop_busy (env : SpiEnv) (fuel : nat) : forall tries st,
  (tries + fuel = 11)%nat ->
  (forall i, (i < fuel)%nat ->
     exists c, cmd_read env (n_cmd_reads st + i) = Some c /\ busy_ c = true) ->
  fst (wait_spi_loop env fuel tries st) = false /\
  n_cmd_reads (snd (wait_spi_loop env fuel tries st)) = (n_cmd_reads st + fuel)%nat.
Proof.
  induction fuel as [| f IH]; intros tries st Ht Hb; cbn [wait_spi_loop readback_loop wait_eeprom_loop readSpiEepromCmd n_cmd_reads n_writes n_buf_reads spi_log].
  - spi_simpl. split; [reflexivity | lia].
  - destruct (Hb 0%nat ltac:(lia)) as (c & Ec & Ebc). rewrite Nat.add_0_r in Ec.
    rewrite Ec, Ebc. spi_simpl.
    destruct (Nat.leb (S tries) 10) eqn:El; spi_simpl.
    + apply Nat.leb_le in El.
      destruct (IH (S tries) (mkSpiSt (n_writes st) (S (n_cmd_reads st))
                                      (n_buf_reads st) (spi_log st ++ [OpReadCmd])))
        as [H1 H2]; [lia | |].
      * intros i Hi. simpl. replace (S (n_cmd_reads st + i)) with (n_cmd_reads st + S i)%nat by lia.
        apply Hb. lia.
      * split; [exact H1 |]. rewrite H2. simpl. lia.
    + apply Nat.leb_gt in El. split; [reflexivity | lia].
Qed.

(** The read-back loop of [sendSpiEepromCmd]. *)
Lemma readback_loop_spec (env : SpiEnv) (cmd : WG0XSpiEepromCmd) (fuel : nat) :
  forall tries st ok st',
  readback_loop env cmd fuel tries st = (ok, st') ->
  n_writes st' = n_writes st /\ n_buf_reads st' = n_buf_reads st /\
  (n_cmd_reads st <= n_cmd_reads st' <= n_cmd_reads st + fuel)%nat /\
  spi_log st' = spi_log st ++ repeat OpReadCmd (n_cmd_reads st' - n_cmd_reads st) /\
  (ok = true -> (n_cmd_reads st < n_cmd_reads st')%nat /\
     forall j, (n_cmd_reads st <= j < n_cmd_reads st')%nat ->
       exists stat, cmd_read env j = Some stat /\ operation_ stat = operation_ cmd /\
                    (busy_ stat = false <-> j = pred (n_cmd_reads st'))).
Proof.
  induction fuel as [| f IH]; intros tries st ok st' H; cbn [wait_spi_loop readback_loop wait_eeprom_loop readSpiEepromCmd n_cmd_reads n_writes n_buf_reads spi_log] in H.
  - injection H as <- <-. rewrite Nat.sub_diag, app_nil_r.
    repeat split; try lia; try discriminate.
  - destruct (cmd_read env (n_cmd_reads st)) as [stat |] eqn:Ec.
    2: { injection H as <- <-. spi_simpl. repeat split; try lia; try discriminate.
         replace (S (n_cmd_reads st) - n_cmd_reads st)%nat with 1%nat by lia. reflexivity. }
    destruct (operation_ stat =? operation_ cmd) eqn:Eo; cbn [negb] in H.
    2: { injection H as <- <-. spi_simpl. repeat split; try lia; try discriminate.
         replace (S (n_cmd_reads st) - n_cmd_reads st)%nat with 1%nat by lia. reflexivity. }
    destruct (busy_ stat) eqn:Eb; cbn [negb] in H.
    + destruct (Nat.ltb (S tries) 10) eqn:El.
      * apply IH in H. spi_simpl. destruct H as (H1 & H2 & H3 & H4 & H5).
        split; [exact H1 |]. split; [exact H2 |]. split; [lia |]. split.
        -- rewrite H4, log_snoc_repeat. f_equal. f_equal. lia.
        -- intros Hok. destruct (H5 Hok) as [Hlt Hall]. split; [lia |].
           intros j Hj. destruct (Nat.eq_dec j (n_cmd_reads st)) as [-> | Hne].
           ++ exists stat. split; [exact Ec |]. split; [apply Z.eqb_eq; exact Eo |].
              rewrite Eb. split; [discriminate | lia].
           ++ apply Hall. lia.
      * injection H as <- <-. spi_simpl. repeat split; try lia; try discriminate.
        replace (S (n_cmd_reads st) - n_cmd_reads st)%nat with 1%nat by lia. reflexivity.
    + injection H as <- <-. spi_simpl. repeat split; try lia.
      * replace (S (n_cmd_reads st) - n_cmd_reads st)%nat with 1%nat by lia. reflexivity.
      * intros j Hj. assert (j = n_cmd_reads st) by lia. subst j.
        exists stat. split; [exact Ec |]. split; [apply Z.eqb_eq; exact Eo |].
        rewrite Eb. split; [intros _; reflexivity | reflexivity].
Qed.

(** [sendSpiEepromCmd]: the log grows by reads of the command register, the
    command write and its read-backs; on success all read-backs show the
    command's operation and only the last is not busy. *)
Lemma sendSpiEepromCmd_spec (env : SpiEnv) (cmd : WG0XSpiEepromCmd) (st st' : SpiSt) (ok : bool) :
  sendSpiEepromCmd env cmd st = (ok, st') ->
  n_buf_reads st' = n_buf_reads st /\
  (n_cmd_reads st' <= n_cmd_reads st + 21)%nat /\
  (exists ops, spi_log st' = spi_log st ++ ops) /\
  (ok = true ->
   exists m, (n_cmd_reads st <= m)%nat /\ (m < n_cmd_reads st' <= m + 10)%nat /\
     spi_log st' = spi_log st ++ repeat OpReadCmd (m - n_cmd_reads st)
                   ++ OpWriteCmd cmd :: repeat OpReadCmd (n_cmd_reads st' - m) /\
     forall j, (m <= j < n_cmd_reads st')%nat ->
       exists stat, cmd_read env j = Some stat /\ operation_ stat = operation_ cmd /\
                    (busy_ stat = false <-> j = pred (n_cmd_reads st'))).
Proof.
  unfold sendSpiEepromCmd, waitForSpiEepromReady, mbx_write. intros H.
  pose proof (wait_spi_loop_spec env 11 0 st) as Hw.
  destruct (wait_spi_loop env 11 0 st) as [ok1 st1].
  destruct Hw as (W1 & W2 & W3 & W4 & _).
  destruct ok1; spi_simpl.
  2: { injection H as <- <-. split; [exact W2 |]. split; [lia |].
       split; [eexists; exact W4 | discriminate]. }
  destruct (mbx_write_ok env (n_writes st1)); spi_simpl.
  2: { injection H as <- <-. spi_simpl. split; [exact W2 |]. split; [lia |].
       split; [| discriminate]. eexists. rewrite W4, <- app_assoc. reflexivity. }
  apply readback_loop_spec in H. spi_simpl. destruct H as (R1 & R2 & R3 & R4 & R5).
  split; [lia |]. split; [lia |]. split.
  - eexists. rewrite R4, W4, <- !app_assoc. reflexivity.
  - intros Hok. destruct (R5 Hok) as [Hlt Hall].
    exists (n_cmd_reads st1). split; [lia |]. split; [lia |]. split; [| exact Hall].
    rewrite R4, W4, <- !app_assoc. reflexivity.
Qed.

(** [readEepromStatusReg]: at most one read of the SPI buffer, whose
    second byte is the status returned. *)
Lemma readEepromStatusReg_spec (env : SpiEnv) (st st' : SpiSt) (r : option Z) :
  readEepromStatusReg env st = (r, st') ->
  (n_buf_reads st' <= S (n_buf_reads st))%nat /\
  (exists ops, spi_log st' = spi_log st ++ ops) /\
  (forall raw, r = Some raw ->
     n_buf_reads st' = S (n_buf_reads st) /\
     exists data, buf_read env (n_buf_reads st) = Some data /\ raw = nth 1 data 0).
Proof.
  unfold readEepromStatusReg, mbx_write. intros H.
  destruct (mbx_write_ok env (n_writes st)); spi_simpl.
  2: { injection H as <- <-. spi_simpl. split; [lia |].
       split; [eexists; reflexivity | discriminate]. }
  destruct (sendSpiEepromCmd env (build_arbitrary 2) _) as [sok st2] eqn:Es.
  apply sendSpiEepromCmd_spec in Es. spi_simpl.
  destruct Es as (S1 & _ & (ops & S3) & _).
  destruct sok; spi_simpl.
  2: { injection H as <- <-. split; [lia |].
       split; [| discriminate]. eexists. rewrite S3, <- app_assoc. reflexivity. }
  unfold read_buf in H.
  destruct (buf_read env (n_buf_reads st2)) as [data |] eqn:Eb; injection H as <- <-; spi_simpl.
  - split; [lia |]. split.
    + eexists. rewrite S3, <- !app_assoc. reflexivity.
    + intros raw Hr. injection Hr as <-. split; [lia |].
      exists data. rewrite <- S1. split; [exact Eb | reflexivity].
  - split; [lia |]. split; [| discriminate].
    eexists. rewrite S3, <- !app_assoc. reflexivity.
Qed.

(** The polls of [waitForEepromReady]. *)
Lemma wait_eeprom_loop_spec (env : SpiEnv) (fuel : nat) : forall tries st ok st',
  wait_eeprom_loop env fuel tries st = (ok, st') ->
  (n_buf_reads st' <= n_buf_reads st + fuel)%nat /\
  (exists ops, spi_log st' = spi_log st ++ ops) /\
  (ok = true -> exists data, buf_read env (n_buf_reads st' - 1) = Some data /\
                             ready_ (nth 1 data 0) = true).
Proof.
  induction fuel as [| f IH]; intros tries st ok st' H; cbn [wait_spi_loop readback_loop wait_eeprom_loop readSpiEepromCmd n_cmd_reads n_writes n_buf_reads spi_log] in H.
  - injection H as <- <-. split; [lia |]. split; [exists []; rewrite app_nil_r; reflexivity | discriminate].
  - destruct (readEepromStatusReg env st) as [r st1] eqn:Er.
    apply readEepromStatusReg_spec in Er. destruct Er as (E1 & (ops & E2) & E3).
    destruct r as [raw |].
    2: { injection H as <- <-. split; [lia |]. split; [eexists; exact E2 | discriminate]. }
    destruct (E3 raw eq_refl) as (E4 & data & Ed & Eraw).
    destruct (ready_ raw) eqn:Ey.
    + injection H as <- <-. split; [lia |]. split; [eexists; exact E2 |].
      intros _. exists data. rewrite E4. simpl. rewrite Nat.sub_0_r.
      split; [exact Ed | rewrite <- Eraw; exact Ey].
    + destruct (Nat.ltb (S tries) 20).
      * apply IH in H. destruct H as (H1 & (ops' & H2) & H3).
        split; [lia |]. split; [| exact H3].
        eexists. rewrite H2, E2, <- app_assoc. reflexivity.
      * injection H as <- <-. split; [lia |]. split; [eexists; exact E2 | discriminate].
Qed.


End SpiFacts.

Import Eeprom Spi SpiFacts.

(** [waitForSpiEepromReady] only reads the command register, at most 11
    times ([tries] runs from 1 to 11), and reports ready only when the last
    read shows the register not busy. *)
Theorem waitForSpiEepromReady_polls (env : SpiEnv) (st : SpiSt) :
  let '(ok, st') := waitForSpiEepromReady env st in
  n_writes st' = n_writes st /\ n_buf_reads st' = n_buf_reads st /\
  (n_cmd_reads st' <= n_cmd_reads st + 11)%nat /\
  spi_log st' = spi_log st ++ repeat OpReadCmd (n_cmd_reads st' - n_cmd_reads st) /\
  (ok = true -> exists c, cmd_read env (n_cmd_reads st' - 1) = Some c /\ busy_ c = false).
Proof.
  unfold waitForSpiEepromReady.
  pose proof (wait_spi_loop_spec env 11 0 st) as H.
  destruct (wait_spi_loop env 11 0 st) as [ok st'].
  destruct H as (H1 & H2 & H3 & H4 & H5).
  repeat split; try assumption; try lia.
  intros Hok. exact (proj2 (H5 Hok)).
Qed.

(** A device whose command register stays busy makes
    [waitForSpiEepromReady] fail after exactly 11 reads. *)
Theorem waitForSpiEepromReady_busy_timeout (env : SpiEnv) (st : SpiSt)
  (Hbusy : forall i, (i < 11)%nat ->
     exists c, cmd_read env (n_cmd_reads st + i) = Some c /\ busy_ c = true) :
  fst (waitForSpiEepromReady env st) = false /\
  n_cmd_reads (snd (waitForSpiEepromReady env st)) = (n_cmd_reads st + 11)%nat.
Proof.
  unfold waitForSpiEepromReady. apply wait_spi_loop_busy; [reflexivity | exact Hbusy].
Qed.

Lemma waitForSpiEepromReady_busy_timeout_witness :
  fst (waitForSpiEepromReady always_busy_env spi_init) = false /\
  n_cmd_reads (snd (waitForSpiEepromReady always_busy_env spi_init)) = 11%nat.
Proof.
  apply (waitForSpiEepromReady_busy_timeout always_busy_env spi_init).
  intros i _. exists (busy_cmd 0). split; reflexivity.
Defined.

(** When [sendSpiEepromCmd] succeeds, the mailbox traffic is: polls of the
    command register, the write of the command, then at most 10 read-backs.
    Every read-back shows the command's operation and only the last one is
    not busy. *)
Theorem sendSpiEepromCmd_readback (env : SpiEnv) (cmd : WG0XSpiEepromCmd) (st st' : SpiSt)
  (H : sendSpiEepromCmd env cmd st = (true, st')) :
  exists m, (n_cmd_reads st <= m)%nat /\ (m < n_cmd_reads st' <= m + 10)%nat /\
    spi_log st' = spi_log st ++ repeat OpReadCmd (m - n_cmd_reads st)
                  ++ OpWriteCmd cmd :: repeat OpReadCmd (n_cmd_reads st' - m) /\
    forall j, (m <= j < n_cmd_reads st')%nat ->
      exists stat, cmd_read env j = Some stat /\ operation_ stat = operation_ cmd /\
                   (busy_ stat = false <-> j = pred (n_cmd_reads st')).
Proof.
  apply sendSpiEepromCmd_spec in H. destruct H as (_ & _ & _ & H). exact (H eq_refl).
Qed.

Lemma sendSpiEepromCmd_readback_witness :
  sendSpiEepromCmd page_write_env (build_write 5) (mkSpiSt 0 1 0 [])
    = (true, mkSpiSt 1 4 0 [OpReadCmd; OpWriteCmd (build_write 5); OpReadCmd; OpReadCmd]) /\
  exists m, (1 <= m)%nat /\ (m < 4 <= m + 10)%nat /\
    [OpReadCmd; OpWriteCmd (build_write 5); OpReadCmd; OpReadCmd]
      = [] ++ repeat OpReadCmd (m - 1) ++ OpWriteCmd (build_write 5) :: repeat OpReadCmd (4 - m) /\
    forall j, (m <= j < 4)%nat ->
      exists stat, cmd_read page_write_env j = Some stat /\
                   operation_ stat = operation_ (build_write 5) /\
                   (busy_ stat = false <-> j = pred 4).
Proof.
  assert (E : sendSpiEepromCmd page_write_env (build_write 5) (mkSpiSt 0 1 0 [])
    = (true, mkSpiSt 1 4 0 [OpReadCmd; OpWriteCmd (build_write 5); OpReadCmd; OpReadCmd]))
    by reflexivity.
  split; [exact E |].
  exact (sendSpiEepromCmd_readback page_write_env (build_write 5) (mkSpiSt 0 1 0 []) _ E).
Defined.

(** [readEepromStatusReg] returns the second byte of the single SPI buffer
    read it makes. *)
Theorem readEepromStatusReg_byte1 (env : SpiEnv) (st st' : SpiSt) (raw : Z)
  (H : readEepromStatusReg env st = (Some raw, st')) :
  n_buf_reads st' = S (n_buf_reads st) /\
  exists data, buf_read env (n_buf_reads st) = Some data /\ raw = nth 1 data 0.
Proof.
  apply readEepromStatusReg_spec in H. destruct H as (_ & _ & H). exact (H raw eq_refl).
Qed.

Lemma readEepromStatusReg_byte1_witness :
  readEepromStatusReg page_write_env (mkSpiSt 0 4 0 [])
    = (Some 128, mkSpiSt 2 6 1 [OpWriteBuf [215; 0]; OpReadCmd;
                                OpWriteCmd (build_arbitrary 2); OpReadCmd; OpReadBuf 2]) /\
  (1 = 1)%nat /\ exists data, buf_read page_write_env 0 = Some data /\ 128 = nth 1 data 0.
Proof.
  assert (E : readEepromStatusReg page_write_env (mkSpiSt 0 4 0 [])
    = (Some 128, mkSpiSt 2 6 1 [OpWriteBuf [215; 0]; OpReadCmd;
                                OpWriteCmd (build_arbitrary 2); OpReadCmd; OpReadBuf 2]))
    by reflexivity.
  split; [exact E |].
  exact (readEepromStatusReg_byte1 page_write_env (mkSpiSt 0 4 0 []) _ 128 E).
Defined.

(** [waitForEepromReady] makes at most 20 status reads, and reports ready
    only when the status byte of the last buffer read has its ready bit. *)
Theorem waitForEepromReady_bounded (env : SpiEnv) (st : SpiSt) :
  let '(ok, st') := waitForEepromReady env st in
  (n_buf_reads st' <= n_buf_reads st + 20)%nat /\
  (ok = true -> exists data, buf_read env (n_buf_reads st' - 1) = Some data /\
                             ready_ (nth 1 data 0) = true).
Proof.
  unfold waitForEepromReady.
  destruct (wait_eeprom_loop env 20 0 st) as [ok st'] eqn:E.
  apply wait_eeprom_loop_spec in E. destruct E as (E1 & _ & E3).
  split; assumption.
Qed.



(* ------------------------------------------------------------------ *)
(** ** CRC-32 of the actuator information record *)

Module CrcFacts.
Import BitFacts Crc.

Lemma shiftr1_range (c : Z) : 0 <= c < 2 ^ 32 -> 0 <= Z.shiftr c 1 < 2 ^ 31.
Proof.
  intros H. rewrite Z.shiftr_div_pow2 by lia. change (2 ^ 1) with 2.
  split; [apply Z.div_pos; lia | apply Z.div_lt_upper_bound; lia].
Qed.

Lemma crc32_bit_range (c : Z) : 0 <= c < 2 ^ 32 -> 0 <= crc32_bit c < 2 ^ 32.
Proof.
  intros H. pose proof (shiftr1_range c H). unfold crc32_bit.
  destruct (Z.testbit c 0).
  - apply lxor_range; unfold CRC32_POLY; lia.
  - lia.
Qed.

(** One step of the bitwise CRC is injective on 32-bit values: bit 31 of
    the result tells whether the polynomial was added. *)
Lemma crc32_bit_inj (x y : Z) :
  0 <= x < 2 ^ 32 -> 0 <= y < 2 ^ 32 -> crc32_bit x = crc32_bit y -> x = y.
Proof.
  intros Hx Hy H. unfold crc32_bit in H.
  assert (Bx : Z.testbit (Z.shiftr x 1) 31 = false)
    by (rewrite Z.shiftr_spec by lia; apply (high_bits_zero 32); lia).
  assert (By : Z.testbit (Z.shiftr y 1) 31 = false)
    by (rewrite Z.shiftr_spec by lia; apply (high_bits_zero 32); lia).
  assert (Bp : Z.testbit CRC32_POLY 31 = true) by reflexivity.
  assert (Hs : Z.testbit x 0 = Z.testbit y 0 /\ Z.shiftr x 1 = Z.shiftr y 1).
  { destruct (Z.testbit x 0), (Z.testbit y 0).
    - split; [reflexivity |]. rewrite !(Z.lxor_comm _ CRC32_POLY) in H.
      exact (lxor_cancel_l _ _ _ H).
    - apply (f_equal (fun z => Z.testbit z 31)) in H.
      rewrite Z.lxor_spec, Bx, Bp, By in H. discriminate.
    - apply (f_equal (fun z => Z.testbit z 31)) in H.
      rewrite Z.lxor_spec, Bx, Bp, By in H. discriminate.
    - split; [reflexivity | exact H]. }
  destruct Hs as [H0 H1].
  apply Z.bits_inj'. intros n Hn.
  destruct (Z.eq_dec n 0) as [-> | Hne]; [exact H0 |].
  replace n with (n - 1 + 1) by lia.
  rewrite <- !Z.shiftr_spec by lia. rewrite H1. reflexivity.
Qed.

Lemma iter_bit_range (k : nat) (c : Z) :
  0 <= c < 2 ^ 32 -> 0 <= Nat.iter k crc32_bit c < 2 ^ 32.
Proof.
  induction k as [| k IH]; intros H; simpl; [exact H | apply crc32_bit_range; exact (IH H)].
Qed.

Lemma iter_bit_inj (k : nat) (x y : Z) :
  0 <= x < 2 ^ 32 -> 0 <= y < 2 ^ 32 ->
  Nat.iter k crc32_bit x = Nat.iter k crc32_bit y -> x = y.
Proof.
  induction k as [| k IH]; intros Hx Hy H; simpl in H; [exact H |].
  apply IH; [exact Hx | exact Hy |].
  apply crc32_bit_inj; [apply iter_bit_range; exact Hx | apply iter_bit_range; exact Hy | exact H].
Qed.

Lemma crc32_byte_range (c b : Z) :
  0 <= c < 2 ^ 32 -> is_byte b -> 0 <= crc32_byte c b < 2 ^ 32.
Proof.
  unfold is_byte. intros Hc Hb. unfold crc32_byte.
  apply iter_bit_range. apply lxor_range; lia.
Qed.

Lemma crc32_byte_inj_b (c a b : Z) :
  0 <= c < 2 ^ 32 -> is_byte a -> is_byte b -> crc32_byte c a = crc32_byte c b -> a = b.
Proof.
  unfold is_byte, crc32_byte. intros Hc Ha Hb H.
  apply iter_bit_inj in H; [| apply lxor_range; lia | apply lxor_range; lia].
  exact (lxor_cancel_l _ _ _ H).
Qed.

Lemma crc32_byte_inj_c (c c' b : Z) :
  0 <= c < 2 ^ 32 -> 0 <= c' < 2 ^ 32 -> is_byte b ->
  crc32_byte c b = crc32_byte c' b -> c = c'.
Proof.
  unfold is_byte, crc32_byte. intros Hc Hc' Hb H.
  apply iter_bit_inj in H; [| apply lxor_range; lia | apply lxor_range; lia].
  rewrite !(Z.lxor_comm _ b) in H. exact (lxor_cancel_l _ _ _ H).
Qed.

Lemma fold_crc_range (l : list Z) : forall c,
  Forall is_byte l -> 0 <= c < 2 ^ 32 -> 0 <= fold_left crc32_byte l c < 2 ^ 32.
Proof.
  induction l as [| x l IH]; intros c Hl Hc; simpl; [exact Hc |].
  inversion Hl; subst. apply IH; [assumption | apply crc32_byte_range; assumption].
Qed.

Lemma fold_crc_inj (l : list Z) : forall c c',
  Forall is_byte l -> 0 <= c < 2 ^ 32 -> 0 <= c' < 2 ^ 32 ->
  fold_left crc32_byte l c = fold_left crc32_byte l c' -> c = c'.
Proof.
  induction l as [| x l IH]; intros c c' Hl Hc Hc' H; simpl in H; [exact H |].
  inversion Hl; subst.
  apply IH in H; [| assumption | apply crc32_byte_range; assumption
                  | apply crc32_byte_range; assumption].
  apply (crc32_byte_inj_c c c' x); assumption.
Qed.

Lemma ones32_range : 0 <= Z.ones 32 < 2 ^ 32.
Proof. change (Z.ones 32) with 4294967295. lia. Qed.

Lemma crc_final_inj (x y : Z) :
  0 <= x < 2 ^ 32 -> 0 <= y < 2 ^ 32 ->
  Z.land (Z.lxor x (Z.ones 32)) (Z.ones 32) = Z.land (Z.lxor y (Z.ones 32)) (Z.ones 32) ->
  x = y.
Proof.
  intros Hx Hy H. pose proof ones32_range.
  rewrite !Z.land_ones in H by lia.
  rewrite !Z.mod_small in H by (apply lxor_range; lia).
  rewrite !(Z.lxor_comm _ (Z.ones 32)) in H. exact (lxor_cancel_l _ _ _ H).
Qed.

Lemma crc_32_range (l : list Z) : 0 <= crc_32 l < 2 ^ 32.
Proof.
  unfold crc_32. rewrite Z.land_ones by lia. apply Z.mod_pos_bound. lia.
Qed.

(** The CRC of a byte string changes when one byte of it changes. *)
Lemma crc_32_single_change (pre post : list Z) (a b : Z) :
  Forall is_byte pre -> Forall is_byte post -> is_byte a -> is_byte b -> a <> b ->
  crc_32 (pre ++ a :: post) <> crc_32 (pre ++ b :: post).
Proof.
  intros Hpre Hpost Ha Hb Hab H. unfold crc_32 in H.
  rewrite !fold_left_app in H. cbn [fold_left] in H.
  pose proof ones32_range as Ho.
  pose proof (fold_crc_range pre (Z.ones 32) Hpre Ho) as Hacc.
  set (acc := fold_left crc32_byte pre (Z.ones 32)) in *.
  apply crc_final_inj in H;
    [| apply fold_crc_range; [exact Hpost | apply crc32_byte_range; assumption]
     | apply fold_crc_range; [exact Hpost | apply crc32_byte_range; assumption]].
  apply fold_crc_inj in H;
    [| exact Hpost | apply crc32_byte_range; assumption | apply crc32_byte_range; assumption].
  exact (Hab (crc32_byte_inj_b _ _ _ Hacc Ha Hb H)).
Qed.

(** Little-endian decoding of [le32]. *)
Lemma le32_decode (v : Z) : 0 <= v < 2 ^ 32 ->
  nth 0 (le32 v) 0 + 256 * nth 1 (le32 v) 0
  + 65536 * nth 2 (le32 v) 0 + 16777216 * nth 3 (le32 v) 0 = v.
Proof.
  intros Hv. unfold le32. cbn [nth].
  change 255 with (Z.ones 8). rewrite !Z.land_ones by lia.
  rewrite !Z.shiftr_div_pow2 by lia. change (2 ^ 8) with 256.
  change (2 ^ 16) with (256 * 256). change (2 ^ 24) with (256 * 256 * 256).
  rewrite <- !Z.div_div by lia.
  assert (E1 := Z.div_mod v 256 ltac:(lia)).
  assert (E2 := Z.div_mod (v / 256) 256 ltac:(lia)).
  assert (E3 := Z.div_mod (v / 256 / 256) 256 ltac:(lia)).
  assert (B : 0 <= v / 256 / 256 / 256 < 256).
  { rewrite !Z.div_div by lia. split; [apply Z.div_pos; lia | apply Z.div_lt_upper_bound; lia]. }
  rewrite (Z.mod_small (v / 256 / 256 / 256)) by exact B.
  lia.
Qed.

Lemma le32_length (v : Z) : List.length (le32 v) = 4%nat.
Proof. reflexivity. Qed.

Lemma nth_set_u32_low (l : list Z) (off : nat) (v : Z) (j : nat) (d : Z) :
  (off <= List.length l)%nat -> (j < off)%nat -> nth j (set_u32 l off v) d = nth j l d.
Proof.
  intros Hl Hj. unfold set_u32.
  rewrite app_nth1 by (rewrite firstn_length_le; lia).
  rewrite nth_firstn. replace (j <? off)%nat with true by (symmetry; apply Nat.ltb_lt; lia).
  reflexivity.
Qed.

Lemma nth_set_u32_mid (l : list Z) (off : nat) (v : Z) (i : nat) (d : Z) :
  (off <= List.length l)%nat -> (i < 4)%nat ->
  nth (off + i) (set_u32 l off v) d = nth i (le32 v) d.
Proof.
  intros Hl Hi. unfold set_u32.
  rewrite app_nth2 by (rewrite firstn_length_le; lia).
  rewrite firstn_length_le by lia. replace (off + i - off)%nat with i by lia.
  rewrite app_nth1 by (rewrite le32_length; lia). reflexivity.
Qed.

Lemma firstn_set_u32 (l : list Z) (off : nat) (v : Z) (n : nat) :
  (off <= List.length l)%nat -> (n <= off)%nat -> firstn n (set_u32 l off v) = firstn n l.
Proof.
  intros Hl Hn. unfold set_u32.
  rewrite firstn_app, firstn_length_le by lia.
  replace (n - off)%nat with 0%nat by lia. rewrite firstn_O, app_nil_r.
  rewrite firstn_firstn. f_equal. lia.
Qed.

Lemma length_set_u32 (l : list Z) (off : nat) (v : Z) :
  (off + 4 <= List.length l)%nat -> List.length (set_u32 l off v) = List.length l.
Proof.
  intros Hl. unfold set_u32.
  rewrite !length_app, firstn_length_le, le32_length, length_skipn by lia. lia.
Qed.

Lemma get_u32_set_u32 (l : list Z) (off : nat) (v : Z) :
  (off <= List.length l)%nat -> 0 <= v < 2 ^ 32 -> get_u32 (set_u32 l off v) off = v.
Proof.
  intros Hl Hv. unfold get_u32.
  rewrite !nth_set_u32_mid by lia.
  replace off with (off + 0)%nat at 1 by lia.
  rewrite nth_set_u32_mid by lia. apply le32_decode. exact Hv.
Qed.

Lemma get_u32_set_u32_other (l : list Z) (off off' : nat) (v : Z) :
  (off <= List.length l)%nat -> (off' + 4 <= off)%nat ->
  get_u32 (set_u32 l off v) off' = get_u32 l off'.
Proof.
  intros Hl Ho. unfold get_u32. rewrite !nth_set_u32_low by lia. reflexivity.
Qed.

Lemma Forall_firstn' {A} (P : A -> Prop) (l : list A) : forall n,
  Forall P l -> Forall P (firstn n l).
Proof.
  induction l as [| x l IH]; intros [| n] H; simpl; try constructor.
  - inversion H; assumption.
  - inversion H; subst. apply IH. assumption.
Qed.

Lemma Forall_skipn' {A} (P : A -> Prop) (l : list A) : forall n,
  Forall P l -> Forall P (skipn n l).
Proof.
  induction l as [| x l IH]; intros [| n] H; simpl; try assumption; try constructor.
  inversion H; subst. apply IH. assumption.
Qed.

Lemma le32_bytes (v : Z) : Forall is_byte (le32 v).
Proof. unfold le32, is_byte. repeat constructor; apply land_255_range. Qed.

Lemma set_u32_bytes (l : list Z) (off : nat) (v : Z) :
  Forall is_byte l -> Forall is_byte (set_u32 l off v).
Proof.
  intros H. unfold set_u32. apply Forall_app. split; [apply Forall_firstn'; exact H |].
  apply Forall_app. split; [apply le32_bytes | apply Forall_skipn'; exact H].
Qed.

Lemma forallb_is_byte (l : list Z) :
  forallb (fun x => (0 <=? x) && (x <? 256)) l = true -> Forall is_byte l.
Proof.
  intros H. apply Forall_forall. intros x Hx. rewrite forallb_forall in H.
  specialize (H x Hx). apply andb_true_iff in H. destruct H as [H1 H2].
  unfold is_byte. apply Z.leb_le in H1. apply Z.ltb_lt in H2. lia.
Qed.

(** What [generateCRC] stores: both CRCs of the record, over its own
    prefixes; the first 252 bytes are left alone. *)
Lemma generateCRC_spec (info : list Z) :
  List.length info = 264%nat ->
  List.length (generateCRC info) = 264%nat /\
  firstn 252 (generateCRC info) = firstn 252 info /\
  get_u32 (generateCRC info) 252 = crc_32 (firstn 252 (generateCRC info)) /\
  get_u32 (generateCRC info) 260 = crc_32 (firstn 260 (generateCRC info)).
Proof.
  intros Hl. unfold generateCRC, crc32_256_offset, crc32_264_offset.
  set (info1 := set_u32 info 252 (crc_32 (firstn 252 info))).
  assert (L1 : List.length info1 = 264%nat) by (unfold info1; rewrite length_set_u32; lia).
  assert (F1 : firstn 252 info1 = firstn 252 info) by (unfold info1; apply firstn_set_u32; lia).
  split; [rewrite length_set_u32; lia |].
  split; [rewrite firstn_set_u32 by lia; exact F1 |].
  split.
  - rewrite get_u32_set_u32_other by lia. rewrite firstn_set_u32 by lia. rewrite F1.
    unfold info1. apply get_u32_set_u32; [lia | apply crc_32_range].
  - rewrite get_u32_set_u32 by (try lia; apply crc_32_range).
    rewrite firstn_set_u32 by lia. reflexivity.
Qed.

Lemma nth_change (pre post : list Z) (a b : Z) (j : nat) (d : Z) :
  j <> List.length pre -> nth j (pre ++ b :: post) d = nth j (pre ++ a :: post) d.
Proof.
  intros Hj. destruct (Nat.lt_ge_cases j (List.length pre)) as [Hlt | Hge].
  - rewrite !app_nth1 by lia. reflexivity.
  - rewrite !app_nth2 by lia. destruct (j - List.length pre)%nat eqn:E; [lia | reflexivity].
Qed.

Lemma get_u32_change (pre post : list Z) (a b : Z) (off : nat) :
  (List.length pre < off)%nat -> get_u32 (pre ++ b :: post) off = get_u32 (pre ++ a :: post) off.
Proof. intros H. unfold get_u32. rewrite !(nth_change pre post a b) by lia. reflexivity. Qed.

Lemma firstn_change (pre post : list Z) (x : Z) (n : nat) :
  (List.length pre < n)%nat ->
  firstn n (pre ++ x :: post) = pre ++ x :: firstn (n - S (List.length pre)) post.
Proof.
  intros H. rewrite firstn_app, firstn_all2 by lia. f_equal.
  replace (n - List.length pre)%nat with (S (n - S (List.length pre))) by lia. reflexivity.
Qed.

Lemma nth_firstn_app (l t : list Z) (n j : nat) (d : Z) :
  (j < n <= List.length l)%nat -> nth j (firstn n l ++ t) d = nth j l d.
Proof.
  intros H. rewrite app_nth1 by (rewrite firstn_length_le; lia).
  rewrite nth_firstn. replace (j <? n)%nat with true by (symmetry; apply Nat.ltb_lt; lia).
  reflexivity.
Qed.

Lemma firstn_firstn_app (l t : list Z) (n k : nat) :
  (k <= n <= List.length l)%nat -> firstn k (firstn n l ++ t) = firstn k l.
Proof.
  intros H. rewrite firstn_app, firstn_length_le by lia.
  replace (k - n)%nat with 0%nat by lia. rewrite firstn_O, app_nil_r, firstn_firstn.
  f_equal. lia.
Qed.

(** A record that agrees with a generated one on its first 256 bytes
    passes the check of the first CRC. *)
Lemma verifyCRC_256_prefix (info t : list Z) :
  List.length info = 264%nat ->
  get_u32 (firstn 256 (generateCRC info) ++ t) 252
    = crc_32 (firstn 252 (firstn 256 (generateCRC info) ++ t)).
Proof.
  intros Hl. destruct (generateCRC_spec info Hl) as (G1 & _ & G3 & _).
  unfold get_u32. rewrite !nth_firstn_app by lia.
  rewrite firstn_firstn_app by lia. exact G3.
Qed.

End CrcFacts.

Import Crc CrcFacts.

(** [generateCRC] on a 264-byte record stores both CRCs so that each one
    matches the CRC of the bytes before it, and [verifyCRC] accepts the
    result. *)
Theorem generateCRC_verifies (info : list Z) (Hlen : List.length info = 264%nat) :
  get_u32 (generateCRC info) crc32_256_offset
    = crc_32 (firstn crc32_256_offset (generateCRC info)) /\
  get_u32 (generateCRC info) crc32_264_offset
    = crc_32 (firstn crc32_264_offset (generateCRC info)) /\
  verifyCRC (generateCRC info) = true.
Proof.
  destruct (generateCRC_spec info Hlen) as (_ & _ & G3 & G4).
  unfold verifyCRC, crc32_256_offset, crc32_264_offset.
  rewrite G3, G4, !Z.eqb_refl. split; [reflexivity | split; reflexivity].
Qed.

Lemma generateCRC_verifies_witness :
  get_u32 (generateCRC sample_info) crc32_256_offset
    = crc_32 (firstn crc32_256_offset (generateCRC sample_info)) /\
  get_u32 (generateCRC sample_info) crc32_264_offset
    = crc_32 (firstn crc32_264_offset (generateCRC sample_info)) /\
  verifyCRC (generateCRC sample_info) = true.
Proof. apply generateCRC_verifies. reflexivity. Defined.

(** Changing any one of the first 252 bytes of a record written by
    [generateCRC] makes [verifyCRC] fail: both CRCs cover that byte. *)
Theorem verifyCRC_detects_byte_change (info pre post : list Z) (a b : Z)
  (Hlen : List.length info = 264%nat) (Hbytes : Forall is_byte info)
  (Hg : generateCRC info = pre ++ a :: post)
  (Hpos : (List.length pre < crc32_256_offset)%nat)
  (Hb : is_byte b) (Hab : a <> b) :
  verifyCRC (pre ++ b :: post) = false.
Proof.
  unfold crc32_256_offset in Hpos.
  destruct (generateCRC_spec info Hlen) as (_ & _ & G3 & G4). rewrite Hg in G3, G4.
  assert (Fg : Forall is_byte (pre ++ a :: post))
    by (rewrite <- Hg; unfold generateCRC; apply set_u32_bytes, set_u32_bytes; exact Hbytes).
  apply Forall_app in Fg. destruct Fg as [Fpre Fpost'].
  inversion Fpost' as [| ? ? Fa Fpost]; subst.
  rewrite !firstn_change in G3, G4 by lia.
  unfold verifyCRC, crc32_256_offset, crc32_264_offset.
  rewrite !(get_u32_change pre post a b) by lia.
  rewrite G3, G4, !firstn_change by lia.
  apply orb_false_iff. split; apply Z.eqb_neq;
    apply crc_32_single_change; try assumption; apply Forall_firstn'; assumption.
Qed.

Lemma verifyCRC_detects_byte_change_witness :
  verifyCRC ([87; 71; 48] ++ 54 :: skipn 4 (generateCRC sample_info)) = false.
Proof.
  apply (verifyCRC_detects_byte_change sample_info [87; 71; 48]
           (skipn 4 (generateCRC sample_info)) 53 54).
  - reflexivity.
  - apply forallb_is_byte. vm_compute. reflexivity.
  - vm_compute. reflexivity.
  - unfold crc32_256_offset. simpl. lia.
  - unfold is_byte. lia.
  - lia.
Defined.

(** [verifyCRC] accepts a record as soon as its first CRC matches: bytes
    256 to 263 of a generated record, the second CRC included, can be
    anything. *)
Theorem verifyCRC_ignores_tail (info t : list Z) (Hlen : List.length info = 264%nat) :
  verifyCRC (firstn 256 (generateCRC info) ++ t) = true.
Proof.
  unfold verifyCRC. unfold crc32_256_offset at 1 2.
  rewrite (verifyCRC_256_prefix info t Hlen), Z.eqb_refl, orb_true_r. reflexivity.
Qed.

Lemma verifyCRC_ignores_tail_witness :
  verifyCRC (firstn 256 (generateCRC sample_info) ++ [1; 2; 3; 4; 5; 6; 7; 8]) = true /\
  get_u32 (firstn 256 (generateCRC sample_info) ++ [1; 2; 3; 4; 5; 6; 7; 8]) crc32_264_offset
    <> crc_32 (firstn crc32_264_offset
                 (firstn 256 (generateCRC sample_info) ++ [1; 2; 3; 4; 5; 6; 7; 8])).
Proof.
  split.
  - apply verifyCRC_ignores_tail. reflexivity.
  - vm_compute. discriminate.
Defined.

(* ------------------------------------------------------------------ *)
(** ** Lifetime totals over many polls *)

Module DiagSeqFacts.
Import Diag DiagFacts DiagSeq.

Lemma accumulate_residue (t n o : Z) :
  (accumulate t n o - n) mod 256 = (t - o) mod 256.
Proof.
  rewrite accumulate_mod. unfold u32. change (2 ^ 32) with 4294967296.
  assert (H1 := Z.div_mod (n - o) 256 ltac:(lia)).
  assert (H2 := Z.div_mod (t + (n - o) mod 256) 4294967296 ltac:(lia)).
  set (r := (n - o) mod 256) in *. set (q1 := (n - o) / 256) in *.
  set (x := (t + r) mod 4294967296) in *. set (q2 := (t + r) / 4294967296) in *.
  replace (x - n) with ((t - o) + (- q1 - 16777216 * q2) * 256) by lia.
  apply Z_mod_plus_full.
Qed.

Lemma Forall2_same_residue_refl (l : list (Z * Z)) : Forall2 same_residue l l.
Proof. induction l; constructor; [reflexivity | assumption]. Qed.

Lemma Forall2_same_residue_trans (l1 l2 l3 : list (Z * Z)) :
  Forall2 same_residue l1 l2 -> Forall2 same_residue l2 l3 -> Forall2 same_residue l1 l3.
Proof.
  intros H12. revert l3. induction H12 as [| x y l1 l2 Hxy _ IH]; intros l3 H23;
    inversion H23 as [| ? z ? l3' Hyz H23']; subst; constructor.
  - unfold same_residue in *. congruence.
  - apply IH. assumption.
Qed.

Lemma collectDiagnostics_same_residue (d : WG0XDiagnostics) (p : DiagPoll) :
  Forall2 same_residue (totals_and_counts d) (totals_and_counts (collectDiagnostics d p)).
Proof.
  unfold collectDiagnostics.
  cbv zeta. destruct (lock_ok p); cbn [negb]; [| apply Forall2_same_residue_refl].
  destruct (poll_reads p) as [[s di] |]; [| apply Forall2_same_residue_refl].
  unfold totals_and_counts, same_residue. cbn.
  repeat constructor; cbn [fst snd]; apply accumulate_residue.
Qed.

End DiagSeqFacts.

(* ------------------------------------------------------------------ *)
(** ** The FPGA reset flag and the drop counters over many ticks *)

Module CycleFacts2.
Import Cycle CycleFacts.

Lemma packCommand_keeps (en h r : bool) (s : WG0XState) :
  fpga_internal_reset_detected_ (snd (packCommand en h r s)) = fpga_internal_reset_detected_ s /\
  consecutive_drops_ (snd (packCommand en h r s)) = consecutive_drops_ s /\
  max_consecutive_drops_ (snd (packCommand en h r s)) = max_consecutive_drops_ s.
Proof. unfold packCommand. destruct r; repeat split. Qed.

Lemma verifyState_fpga s st e rv ex s' :
  verifyState s st e = (rv, ex, s') ->
  fpga_internal_reset_detected_ s' = fpga_internal_reset_detected_ s /\
  (fpga_internal_reset_detected_ s = true -> rv = false).
Proof. verifyState_cases; split; intros; try reflexivity; congruence. Qed.

Lemma verifyState_max_drops s st e rv ex s' :
  verifyState s st e = (rv, ex, s') ->
  max_consecutive_drops_ s' =
    if is_drop s (st_timestamp_ st)
    then Z.max (max_consecutive_drops_ s) (next_consecutive_drops s (st_timestamp_ st))
    else max_consecutive_drops_ s.
Proof. verifyState_cases; reflexivity. Qed.

Lemma verifyState_drop_counters s st e rv ex s' :
  verifyState s st e = (rv, ex, s') ->
  0 <= consecutive_drops_ s <= max_consecutive_drops_ s /\ max_consecutive_drops_ s < 2 ^ 32 ->
  0 <= consecutive_drops_ s' <= max_consecutive_drops_ s' /\ max_consecutive_drops_ s' < 2 ^ 32 /\
  max_consecutive_drops_ s <= max_consecutive_drops_ s'.
Proof.
  intros Hv Hs.
  destruct (verifyState_fields _ _ _ _ _ _ Hv) as (_ & _ & _ & Hc & _).
  pose proof (verifyState_max_drops _ _ _ _ _ _ Hv) as Hm.
  rewrite Hc, Hm. unfold next_consecutive_drops.
  destruct (is_drop s (st_timestamp_ st)).
  - assert (Hu : 0 <= u32 (consecutive_drops_ s + 1) < 2 ^ 32)
      by (unfold u32; apply Z.mod_pos_bound; lia).
    lia.
  - lia.
Qed.

End CycleFacts2.

Import Diag DiagSeq DiagSeqFacts.

(** Over any sequence of [collectDiagnostics] polls, failed or not, each
    lifetime total minus the raw counter it was last updated from keeps its
    value modulo 256: the totals count every increment of the 8-bit
    hardware counters, whatever the wrap-arounds in between. *)
Theorem collect_all_same_residue (ps : list DiagPoll) : forall d : WG0XDiagnostics,
  Forall2 (fun p q => (fst q - snd q) mod 256 = (fst p - snd p) mod 256)
          (totals_and_counts d) (totals_and_counts (collect_all d ps)).
Proof.
  induction ps as [| p ps IH]; intros d; simpl.
  - apply Forall2_same_residue_refl.
  - eapply Forall2_same_residue_trans;
      [apply collectDiagnostics_same_residue | apply IH].
Qed.

Import Cycle CycleFacts CycleFacts2.

(** [fpga_internal_reset_detected_] is never cleared, not even by
    [packCommand] with [reset]: once it is set, every later [verifyState]
    returns false. *)
Theorem fpga_internal_reset_latched (s : WG0XState) (evs : list Event)
  (frames : list (WG0XStatus * Ext))
  (Hf : fpga_internal_reset_detected_ s = true) :
  fpga_internal_reset_detected_ (fst (run s evs)) = true /\
  fpga_internal_reset_detected_ (fst (feed s frames)) = true /\
  Forall (fun rv => rv = false) (snd (feed s frames)).
Proof.
  split.
  - revert s Hf. induction evs as [| [en h r | st e] evs IH]; intros s Hf; [exact Hf | |].
    + rewrite run_pack. destruct (packCommand en h r s) as [m s1] eqn:Hp.
      pose proof (packCommand_keeps en h r s) as (K1 & _ & _). rewrite Hp in K1. simpl in K1.
      specialize (IH s1 ltac:(congruence)).
      destruct (run s1 evs) as [s2 out]. exact IH.
    + rewrite run_verify. destruct (verifyState s st e) as [[rv ex] s1] eqn:Hv.
      apply IH. destruct (verifyState_fpga _ _ _ _ _ _ Hv) as [K _]. congruence.
  - revert s Hf. induction frames as [| [st e] fs IH]; intros s Hf; simpl.
    + split; [exact Hf | constructor].
    + destruct (verifyState s st e) as [[rv ex] s1] eqn:Hv.
      destruct (verifyState_fpga _ _ _ _ _ _ Hv) as [K1 K2].
      specialize (IH s1 ltac:(congruence)).
      destruct (feed s1 fs) as [s2 rvs]. simpl in *.
      destruct IH as [IH1 IH2]. split; [exact IH1 | constructor; [exact (K2 Hf) | exact IH2]].
Qed.

Lemma fpga_internal_reset_latched_witness :
  fpga_internal_reset_detected_ (fst (run (mkState false false false false true false false 0 0 0 0 0)
                                          [Pack true false true])) = true /\
  fpga_internal_reset_detected_ (fst (feed (mkState false false false false true false false 0 0 0 0 0)
                                           [(jump_frame, quiet_ext)])) = true /\
  Forall (fun rv => rv = false)
         (snd (feed (mkState false false false false true false false 0 0 0 0 0)
                    [(jump_frame, quiet_ext)])).
Proof. apply fpga_internal_reset_latched. reflexivity. Defined.

(** Over any run of ticks, [consecutive_drops_] stays between 0 and
    [max_consecutive_drops_], which stays below 2^32 and never decreases. *)
Theorem run_drop_counters (evs : list Event) : forall (s : WG0XState)
  (Hs : 0 <= consecutive_drops_ s <= max_consecutive_drops_ s /\ max_consecutive_drops_ s < 2 ^ 32),
  0 <= consecutive_drops_ (fst (run s evs)) <= max_consecutive_drops_ (fst (run s evs)) /\
  max_consecutive_drops_ (fst (run s evs)) < 2 ^ 32 /\
  max_consecutive_drops_ s <= max_consecutive_drops_ (fst (run s evs)).
Proof.
  induction evs as [| [en h r | st e] evs IH]; intros s Hs.
  - simpl. lia.
  - rewrite run_pack. pose proof (packCommand_keeps en h r s) as (_ & K2 & K3).
    destruct (packCommand en h r s) as [m s1] eqn:Hp. simpl in K2, K3.
    specialize (IH s1 ltac:(lia)).
    destruct (run s1 evs) as [s2 out]. simpl in *. lia.
  - rewrite run_verify. destruct (verifyState s st e) as [[rv ex] s1] eqn:Hv.
    destruct (verifyState_drop_counters _ _ _ _ _ _ Hv Hs) as (H1 & H2 & H3).
    specialize (IH s1 (conj H1 H2)). lia.
Qed.

Lemma run_drop_counters_witness :
  0 <= consecutive_drops_ (fst (run init_state (map (fun f => Verify (fst f) (snd f)) dup_frames)))
    <= max_consecutive_drops_ (fst (run init_state (map (fun f => Verify (fst f) (snd f)) dup_frames))) /\
  max_consecutive_drops_ (fst (run init_state (map (fun f => Verify (fst f) (snd f)) dup_frames)))
    < 2 ^ 32 /\
  max_consecutive_drops_ init_state
    <= max_consecutive_drops_ (fst (run init_state (map (fun f => Verify (fst f) (snd f)) dup_frames))).
Proof. apply run_drop_counters. simpl. lia. Defined.
